(** * gin-artweb: the playbook launchers of the mds and oes clusters

    A shallow embedding of [resource/mds/script/python/playbook.py] and
    [resource/oes/script/python/playbook.py]: the trading-calendar
    functions [next_trd_date] and [pre_trd_date] (the two scripts carry the
    same text), the variable builder [init_vars] of each script and the
    host-map builder [init_hosts].

    Python values are modelled as follows.
    - [int] is [Z]; [str(n)] on an int is stdpp's [pretty].
    - [str] is [string]; only ASCII white space is known to [strip].
    - a [dict] with string keys is a [gmap string _]; [{**a, **b}] is
      [b ∪ a] (stdpp's union keeps the left operand on a collision).
    - a raised exception is the [Raise] case of [result].
    - the files are read through a [filesystem] record that holds, per
      path, the document [yaml.safe_load] gives for it. *)

From Stdlib Require Import ZArith Lia Ascii String.
From stdpp Require Import gmap strings list fin_maps pretty.

Local Open Scope Z_scope.

(** ** Exceptions and results *)

(** The two messages of the [AssertionError]s raised by the calendar
    functions: ['日期不能为空'] (the date is empty) and
    ['交易日历缺少{year}年的交易日列表'] (the calendar has no list for
    [year]). *)
Inductive assertion :=
| EmptyDate
| MissingYear (year : Z).

(** A [Path] is the list of its components below the root. *)
Abbreviation path := (list string).

Inductive exn :=
| AssertionError (a : assertion)
| FileNotFoundError (p : path)
| KeyError (k : string)
| IndexError
| TypeError
| ValueError
| RecursionError.

(** The names the design document gives to the two assertion failures. *)
Definition InvalidDateError : exn := AssertionError EmptyDate.
Definition CalendarGapError (year : Z) : exn := AssertionError (MissingYear year).
(** [MissingConfigFile] of the design document is Python's
    [FileNotFoundError]. *)
Definition MissingConfigFile (p : path) : exn := FileNotFoundError p.

Inductive result (A : Type) :=
| Ok (a : A)
| Raise (e : exn).
Arguments Ok {A} a.
Arguments Raise {A} e.

(** Sequencing: the first exception raised ends the computation. stdpp's
    [x ← r; k] is read through this instance. *)
Global Instance result_bind : MBind result := λ A B k r,
  match r with
  | Ok a => k a
  | Raise e => Raise e
  end.
Global Instance result_ret : MRet result := λ A a, Ok a.

Definition is_ok {A} (r : result A) : bool :=
  match r with Ok _ => true | Raise _ => false end.

(** ** Python list primitives on [List[int]] *)

Module Py.

(** [l.index(x)]: the position of the first occurrence. *)
Fixpoint index (x : Z) (l : list Z) : option nat :=
  match l with
  | [] => None
  | y :: l' => if bool_decide (x = y) then Some 0%nat else S <$> index x l'
  end.

(** [l[i]] for an int [i]: a negative index counts from the end. *)
Definition getitem (l : list Z) (i : Z) : option Z :=
  if bool_decide (0 ≤ i) then l !! Z.to_nat i
  else if bool_decide (- Z.of_nat (length l) ≤ i)
       then l !! Z.to_nat (Z.of_nat (length l) + i)
       else None.

(** [x in l]. *)
Definition contains (x : Z) (l : list Z) : bool := bool_decide (x ∈ l).

End Py.

(** ** The trading calendar *)

(** [Dict[str, List[int]]], the decoded [TrdDateList.yaml]. *)
Abbreviation calendar := (gmap string (list Z)).

(** The key [f'trd_date_{the_year}_list']. *)
Definition trd_key (the_year : Z) : string :=
  "trd_date_" +:+ pretty the_year +:+ "_list".

(** The recursion of [next_trd_date], with the depth of the call stack made
    explicit: [None] is a stack that was not deep enough. *)
Fixpoint next_trd_date_rec (depth : nat) (trd_dates : calendar)
    (date the_year : Z) : option (result string) :=
  match depth with
  | O => None
  | S depth' =>
    if bool_decide (date = 0) then Some (Raise InvalidDateError) else
    let trdDateList := default [] (trd_dates !! trd_key the_year) in
    match last trdDateList with
    | None => Some (Raise (CalendarGapError the_year))
    | Some final =>
      if bool_decide (final ≤ date) then
        let new_year := the_year + 1 in
        match trd_dates !! trd_key new_year with
        | Some (first :: _) => Some (Ok (pretty first))
        | Some [] | None => Some (Raise (CalendarGapError new_year))
        end
      else if Py.contains date trdDateList then
        match Py.index date trdDateList with
        | None => Some (Raise ValueError)
        | Some index =>
          match Py.getitem trdDateList (Z.of_nat index + 1) with
          | Some next_date => Some (Ok (pretty next_date))
          | None => Some (Raise IndexError)
          end
        end
      else
        let new_date := date + 1 in
        if Py.contains new_date trdDateList then Some (Ok (pretty new_date))
        else next_trd_date_rec depth' trd_dates new_date the_year
    end
  end.

(** The recursion of [pre_trd_date]. *)
Fixpoint pre_trd_date_rec (depth : nat) (trd_dates : calendar)
    (date the_year : Z) : option (result string) :=
  match depth with
  | O => None
  | S depth' =>
    if bool_decide (date = 0) then Some (Raise InvalidDateError) else
    let trdDateList := default [] (trd_dates !! trd_key the_year) in
    match head trdDateList with
    | None => Some (Raise (CalendarGapError the_year))
    | Some first =>
      if bool_decide (date ≤ first) then
        let last_year := the_year - 1 in
        match last <$> trd_dates !! trd_key last_year with
        | Some (Some final) => Some (Ok (pretty final))
        | Some None | None => Some (Raise (CalendarGapError last_year))
        end
      else if Py.contains date trdDateList then
        match Py.index date trdDateList with
        | None => Some (Raise ValueError)
        | Some index =>
          match Py.getitem trdDateList (Z.of_nat index - 1) with
          | Some pre_date => Some (Ok (pretty pre_date))
          | None => Some (Raise IndexError)
          end
        end
      else
        let last_date := date - 1 in
        if Py.contains last_date trdDateList then Some (Ok (pretty last_date))
        else pre_trd_date_rec depth' trd_dates last_date the_year
    end
  end.

(** The number of nested calls a query can need: one per day between [date]
    and the end of the year's list it walks to. *)
Definition next_depth (trd_dates : calendar) (date the_year : Z) : nat :=
  match last (default [] (trd_dates !! trd_key the_year)) with
  | Some final => S (Z.to_nat (final - date))
  | None => 1
  end.

Definition pre_depth (trd_dates : calendar) (date the_year : Z) : nat :=
  match head (default [] (trd_dates !! trd_key the_year)) with
  | Some first => S (Z.to_nat (date - first))
  | None => 1
  end.

(** [next_trd_date(trd_dates, date, the_year)] and
    [pre_trd_date(trd_dates, date, the_year)] as an interpreter runs them,
    with room for [frames] nested calls on its stack: a recursion that
    needs more raises [RecursionError]. *)
Definition next_trd_date_within (frames : nat) (trd_dates : calendar)
    (date the_year : Z) : result string :=
  default (Raise RecursionError) (next_trd_date_rec frames trd_dates date the_year).

Definition pre_trd_date_within (frames : nat) (trd_dates : calendar)
    (date the_year : Z) : result string :=
  default (Raise RecursionError) (pre_trd_date_rec frames trd_dates date the_year).

(** [sys.getrecursionlimit()] of CPython as it is shipped; the frames of the
    callers count against it too. *)
Definition cpython_recursion_limit : nat := 1000.

(** The two functions on a stack deep enough for the whole walk, whatever
    its length: [next_depth] and [pre_depth] frames always suffice, so these
    never raise [RecursionError], and they agree with the run on a stack of
    [frames] frames wherever that run does not raise it. *)
Definition next_trd_date (trd_dates : calendar) (date the_year : Z) : result string :=
  default (Raise RecursionError)
    (next_trd_date_rec (next_depth trd_dates date the_year) trd_dates date the_year).

Definition pre_trd_date (trd_dates : calendar) (date the_year : Z) : result string :=
  default (Raise RecursionError)
    (pre_trd_date_rec (pre_depth trd_dates date the_year) trd_dates date the_year).


(** ** Python string primitives *)

Module Str.

(** [c.isspace()] on the ASCII range: tab to carriage return, the four
    separators 28 to 31, and the blank. *)
Definition isspace (c : ascii) : bool :=
  let n := nat_of_ascii c in
  bool_decide (9 ≤ n ≤ 13)%nat || bool_decide (28 ≤ n ≤ 32)%nat.

Fixpoint lstrip (s : string) : string :=
  match s with
  | EmptyString => EmptyString
  | String c s' => if isspace c then lstrip s' else s
  end.

Fixpoint rstrip (s : string) : string :=
  match s with
  | EmptyString => EmptyString
  | String c s' =>
    match rstrip s' with
    | EmptyString => if isspace c then EmptyString else String c EmptyString
    | r => String c r
    end
  end.

(** [s.strip()]. *)
Definition strip (s : string) : string := rstrip (lstrip s).

(** [sep in s] for a one-character [sep]. *)
Fixpoint contains (sep : ascii) (s : string) : bool :=
  match s with
  | EmptyString => false
  | String c s' => bool_decide (c = sep) || contains sep s'
  end.

(** [s.split(sep)] for a one-character [sep]: never the empty list. *)
Fixpoint split (sep : ascii) (s : string) : list string :=
  match s with
  | EmptyString => [EmptyString]
  | String c s' =>
    if bool_decide (c = sep) then EmptyString :: split sep s'
    else match split sep s' with
         | piece :: pieces => String c piece :: pieces
         | [] => [String c EmptyString]
         end
  end.

(** [s.split(sep, 1)]: cut at the first [sep] only. *)
Fixpoint split1 (sep : ascii) (s : string) : list string :=
  match s with
  | EmptyString => [EmptyString]
  | String c s' =>
    if bool_decide (c = sep) then [EmptyString; s']
    else match split1 sep s' with
         | piece :: pieces => String c piece :: pieces
         | [] => [String c EmptyString]
         end
  end.

(** [s[:n]]. *)
Fixpoint take (n : nat) (s : string) : string :=
  match n, s with
  | S n', String c s' => String c (take n' s')
  | _, _ => EmptyString
  end.

(** [sep.join(l)]. *)
Fixpoint join (sep : string) (l : list string) : string :=
  match l with
  | [] => EmptyString
  | [s] => s
  | s :: l' => s +:+ sep +:+ join sep l'
  end.

Definition digit (c : ascii) : option Z :=
  let n := nat_of_ascii c in
  if bool_decide (48 ≤ n ≤ 57)%nat then Some (Z.of_nat n - 48) else None.

(** The digits of a decimal literal; one underscore may stand between two
    digits. *)
Fixpoint digits (acc : Z) (after_digit : bool) (s : string) : option Z :=
  match s with
  | EmptyString => if after_digit then Some acc else None
  | String c s' =>
    match digit c with
    | Some d => digits (acc * 10 + d) true s'
    | None =>
      if bool_decide (c = "_"%char) && after_digit then digits acc false s'
      else None
    end
  end.

(** [int(s)] on a [str]: white space around, a sign, decimal digits;
    [None] is [ValueError]. *)
Definition to_int (s : string) : option Z :=
  match strip s with
  | String "-" s' => Z.opp <$> digits 0 false s'
  | String "+" s' => digits 0 false s'
  | s' => digits 0 false s'
  end.

End Str.

(** ** Decoded YAML documents and the variable set *)

(** The scalars of a configuration fragment. *)
Inductive scalar :=
| SNone
| SBool (b : bool)
| SInt (n : Z)
| SStr (s : string).

(** A fragment ([colony.yaml], [mon.yaml], [node.yaml], [host_N.yaml])
    decodes to a flat record. *)
Abbreviation record := (gmap string scalar).

(** A value of the variable set: a scalar, or the embedded [mon_host]
    record. *)
Inductive value :=
| Scalar (x : scalar)
| Dict (r : record).

Abbreviation varset := (gmap string value).

Global Instance scalar_eq_dec : EqDecision scalar.
Proof. solve_decision. Defined.
Global Instance value_eq_dec : EqDecision value.
Proof. solve_decision. Defined.

(** [str(x)], as the f-strings and [str(mon_id)] format a scalar. *)
Definition str_scalar (x : scalar) : string :=
  match x with
  | SNone => "None"
  | SBool true => "True"
  | SBool false => "False"
  | SInt n => pretty n
  | SStr s => s
  end.

(** [int(v)]. *)
Definition int_value (v : value) : result Z :=
  match v with
  | Scalar (SInt n) => Ok n
  | Scalar (SBool b) => Ok (if b then 1 else 0)
  | Scalar (SStr s) =>
    match Str.to_int s with Some n => Ok n | None => Raise ValueError end
  | Scalar SNone | Dict _ => Raise TypeError
  end.

(** [v[:4]]: only a string can be sliced. *)
Definition slice4 (v : value) : result value :=
  match v with
  | Scalar (SStr s) => Ok (Scalar (SStr (Str.take 4 s)))
  | _ => Raise TypeError
  end.

(** [v in l] for a list of ints: [==] holds between numbers only, a string
    never equals an int. *)
Definition value_in (v : value) (l : list Z) : bool :=
  match v with
  | Scalar (SInt n) => Py.contains n l
  | Scalar (SBool b) => Py.contains (if b then 1 else 0) l
  | Scalar (SStr _) | Scalar SNone | Dict _ => false
  end.

(** [d[k]] on a dict: [KeyError] for a missing key. *)
Definition getkey {V} (d : gmap string V) (k : string) : result V :=
  match d !! k with
  | Some v => Ok v
  | None => Raise (KeyError k)
  end.

(** [if key not in vars: vars[key] = compute()], for a [compute] that
    returns a string. *)
Definition set_if_absent (key : string) (compute : result string)
    (vars : gmap string value) : result (gmap string value) :=
  match vars !! key with
  | Some _ => Ok vars
  | None => d ← compute; Ok (<[key := Scalar (SStr d)]> vars)
  end.

(** [{**a, **b}]: the entries of [b] replace those of [a]. *)
Definition merge_dicts (a b : record) : record := b ∪ a.

(** ** Paths and files *)

(** [p.joinpath(c1, ..., cn)]. *)
Definition joinpath (p : path) (cs : list string) : path := p ++ cs.

(** [str(p)]. *)
Definition path_str (p : path) : string := Str.join "/" p.

(** What the scripts read: configuration fragments and calendar files, each
    as decoded by [yaml.safe_load], and the entries [iterdir] yields for a
    directory, in the order it yields them, each with its name and whether
    it is a directory. *)
Record filesystem := {
  fragments : gmap path record;
  calendars : gmap path calendar;
  listing : gmap path (list (string * bool));
}.

(** The process the script runs in: its environment variables, the path of
    its interpreter and the local date in [%Y%m%d] form. *)
Record process := {
  environ : gmap string string;
  sys_executable : string;
  localtime_Ymd : string;
}.

(** [os.getenv(name)] followed by the test [if not X]. *)
Definition getenv_nonempty (ps : process) (name : string) : option string :=
  match environ ps !! name with
  | Some EmptyString | None => None
  | Some s => Some s
  end.

Definition get_curr_date (ps : process) : string := localtime_Ymd ps.

(** ** The override layer and the monitoring record (same text in both
    scripts) *)

(** The body of the loop over [extravars.split(";")]. The unpacking
    [key, value = item.split("=", 1)] raises [ValueError] unless the split
    gives two pieces. *)
Definition apply_override (vars : varset) (item : string) : result varset :=
  if Str.contains "=" item then
    match Str.split1 "=" item with
    | [key; value] => Ok (<[Str.strip key := Scalar (SStr (Str.strip value))]> vars)
    | _ => Raise ValueError
    end
  else Ok vars.

Fixpoint apply_override_items (vars : varset) (items : list string) : result varset :=
  match items with
  | [] => Ok vars
  | item :: items' => vars' ← apply_override vars item; apply_override_items vars' items'
  end.

(** [if extravars: for item in extravars.split(";"): ...]. *)
Definition apply_overrides (vars : varset) (extravars : string) : result varset :=
  match extravars with
  | EmptyString => Ok vars
  | _ => apply_override_items vars (Str.split ";" extravars)
  end.

Definition host_file (HOST_CONF_DIR : path) (host_id : scalar) : path :=
  joinpath HOST_CONF_DIR ["host_" +:+ str_scalar host_id +:+ ".yaml"].

(** [load_mon_conf(mon_id)]. *)
Definition load_mon_conf (MON_DIR HOST_CONF_DIR : path) (fs : filesystem)
    (mon_id : scalar) : result record :=
  let mon_path := joinpath MON_DIR ["config"; str_scalar mon_id; "mon.yaml"] in
  match fragments fs !! mon_path with
  | None => Raise (FileNotFoundError mon_path)
  | Some mon_vars =>
    host_id ← getkey mon_vars "host_id";
    let mon_host_path := host_file HOST_CONF_DIR host_id in
    match fragments fs !! mon_host_path with
    | None => Raise (FileNotFoundError mon_host_path)
    | Some mon_host => Ok (merge_dicts mon_vars mon_host)
    end
  end.

(** The names [init_hosts] accepts among the entries of a cluster root. *)
Definition node_dirs : list string := ["host_01"; "host_02"; "host_03"].

(** ** resource/mds/script/python/playbook.py *)

Module Mds.

(** The module-level names. [JOBS_RECORD_ID] falls back to the int [0];
    the module does not load without [JOBS_LOG_PATH] and
    [JOBS_BASE_DIR]. *)
Record globals := {
  JOBS_RECORD_ID : scalar;
  JOBS_LOG_PATH : string;
  JOBS_BASE_DIR : string;
}.

Inductive load_error := LogPathNotSet | BaseDirNotSet.

Definition load (ps : process) : globals + load_error :=
  let record_id :=
    match getenv_nonempty ps "JOBS_RECORD_ID" with
    | Some s => SStr s
    | None => SInt 0
    end in
  match getenv_nonempty ps "JOBS_LOG_PATH" with
  | None => inr LogPathNotSet
  | Some log_path =>
    match getenv_nonempty ps "JOBS_BASE_DIR" with
    | None => inr BaseDirNotSet
    | Some base_dir =>
      inl {| JOBS_RECORD_ID := record_id;
             JOBS_LOG_PATH := log_path;
             JOBS_BASE_DIR := base_dir |}
    end
  end.

Definition BASE_DIR (g : globals) : path := [JOBS_BASE_DIR g].
Definition STORAGE_DIR (g : globals) : path := joinpath (BASE_DIR g) ["storage"].
Definition HOST_CONF_DIR (g : globals) : path := joinpath (STORAGE_DIR g) ["host_vars"].
Definition MON_DIR (g : globals) : path := joinpath (STORAGE_DIR g) ["mon"].
Definition MDS_DIR (g : globals) : path := joinpath (STORAGE_DIR g) ["mds"].
Definition RESOURCE_DIR (g : globals) : path := joinpath (BASE_DIR g) ["resource"].
Definition SCRIPT_DIR (g : globals) : path := joinpath (RESOURCE_DIR g) ["mds"; "script"].
Definition PLAYBOOK_DIR (g : globals) : path := joinpath (RESOURCE_DIR g) ["mds"; "playbook"].

(** [MDS_DIR.joinpath("mon", vars["colony_num"], "TrdDateList.yaml")]:
    [joinpath] takes strings only. *)
Definition trd_data_path (g : globals) (colony_num : value) : result path :=
  match colony_num with
  | Scalar (SStr s) => Ok (joinpath (MDS_DIR g) ["mon"; s; "TrdDateList.yaml"])
  | _ => Raise TypeError
  end.

(** The six assignments that end [init_vars]. *)
Definition set_environment (g : globals) (ps : process) (vars : varset) : varset :=
  let vars := <["JOBS_RECORD_ID" := Scalar (JOBS_RECORD_ID g)]> vars in
  let vars := <["JOBS_LOG_PATH" := Scalar (SStr (JOBS_LOG_PATH g))]> vars in
  let vars := <["local_path_script_home" := Scalar (SStr (path_str (SCRIPT_DIR g)))]> vars in
  let vars := <["local_path_playbook_home" := Scalar (SStr (path_str (PLAYBOOK_DIR g)))]> vars in
  let vars := <["local_path_mds_home" := Scalar (SStr (path_str (MDS_DIR g)))]> vars in
  <["local_python_interpreter" := Scalar (SStr (sys_executable ps))]> vars.

(** [init_vars(config_path, extravars)]. *)
Definition init_vars (g : globals) (ps : process) (fs : filesystem)
    (config_path : path) (extravars : string) : result varset :=
  let colony_path := joinpath config_path ["all"; "colony.yaml"] in
  match fragments fs !! colony_path with
  | None => Raise (FileNotFoundError colony_path)
  | Some colony =>
    let vars : varset := Scalar <$> colony in
    mon_node_id ← getkey colony "mon_node_id";
    mon_host ← load_mon_conf (MON_DIR g) (HOST_CONF_DIR g) fs mon_node_id;
    let vars := <["mon_host" := Dict mon_host]> vars in
    vars ← apply_overrides vars extravars;
    colony_num ← getkey vars "colony_num";
    trd_path ← trd_data_path g colony_num;
    match calendars fs !! trd_path with
    | None => Raise (FileNotFoundError trd_path)
    | Some trd_dates =>
      vars ← set_if_absent "curr_date" (Ok (get_curr_date ps)) vars;
      curr_date ← getkey vars "curr_date";
      curr_date_int ← int_value curr_date;
      curr_year ← slice4 curr_date ≫= int_value;
      vars ← set_if_absent "next_trd_date"
               (next_trd_date trd_dates curr_date_int curr_year) vars;
      vars ← set_if_absent "pre_trd_date"
               (pre_trd_date trd_dates curr_date_int curr_year) vars;
      let trd_year := default [] (trd_dates !! trd_key curr_year) in
      curr_date ← getkey vars "curr_date";
      let vars := <["is_trading_day" := Scalar (SBool (value_in curr_date trd_year))]> vars in
      Ok (set_environment g ps vars)
    end
  end.

(** [f"mds_{colony_num}_{node_data['node_role']}"]. *)
Definition host_name (colony_num : string) (node_role : scalar) : string :=
  "mds_" +:+ colony_num +:+ "_" +:+ str_scalar node_role.

(** The body of the loop of [init_hosts] for one recognized directory
    [path]: the name to insert under and the merged record. *)
Definition load_node (g : globals) (fs : filesystem) (colony_num : string)
    (dir : path) : result (string * record) :=
  let node_path := joinpath dir ["node.yaml"] in
  match fragments fs !! node_path with
  | None => Raise (FileNotFoundError node_path)
  | Some node_data =>
    host_id ← getkey node_data "host_id";
    let host_path := host_file (HOST_CONF_DIR g) host_id in
    match fragments fs !! host_path with
    | None => Raise (FileNotFoundError host_path)
    | Some host_data =>
      node_role ← getkey node_data "node_role";
      Ok (host_name colony_num node_role, merge_dicts node_data host_data)
    end
  end.

(** [for path in conf_path.iterdir(): if path.is_dir() and path.name in
    ("host_01", "host_02", "host_03"): ...]. *)
Fixpoint init_hosts_loop (g : globals) (fs : filesystem) (colony_num : string)
    (conf_path : path) (entries : list (string * bool))
    (mds_cluster_hosts : gmap string record) : result (gmap string record) :=
  match entries with
  | [] => Ok mds_cluster_hosts
  | (name, is_dir) :: entries' =>
    if is_dir && bool_decide (name ∈ node_dirs) then
      '(host_name, host) ← load_node g fs colony_num (joinpath conf_path [name]);
      init_hosts_loop g fs colony_num conf_path entries'
        (<[host_name := host]> mds_cluster_hosts)
    else init_hosts_loop g fs colony_num conf_path entries' mds_cluster_hosts
  end.

(** [init_hosts(colony_num, conf_path)]. *)
Definition init_hosts (g : globals) (fs : filesystem) (colony_num : string)
    (conf_path : path) : result (gmap string record) :=
  match listing fs !! conf_path with
  | None => Raise (FileNotFoundError conf_path)
  | Some entries => init_hosts_loop g fs colony_num conf_path entries ∅
  end.

End Mds.

(** ** resource/oes/script/python/playbook.py *)

Module Oes.

Record globals := {
  ANSIBLE_LOG_PATH : string;
  ANSIBLE_BASE_DIR : string;
}.

Inductive load_error := LogPathNotSet | BaseDirNotSet.

Definition load (ps : process) : globals + load_error :=
  match getenv_nonempty ps "JOB_LOG_PATH" with
  | None => inr LogPathNotSet
  | Some log_path =>
    match getenv_nonempty ps "JOB_BASE_DIR" with
    | None => inr BaseDirNotSet
    | Some base_dir =>
      inl {| ANSIBLE_LOG_PATH := log_path; ANSIBLE_BASE_DIR := base_dir |}
    end
  end.

Definition BASE_DIR (g : globals) : path := [ANSIBLE_BASE_DIR g].
Definition STORAGE_DIR (g : globals) : path := joinpath (BASE_DIR g) ["storage"].
Definition HOST_CONF_DIR (g : globals) : path := joinpath (STORAGE_DIR g) ["host_vars"].
Definition MON_DIR (g : globals) : path := joinpath (STORAGE_DIR g) ["mon"].
Definition OES_DIR (g : globals) : path := joinpath (STORAGE_DIR g) ["oes"].
Definition RESOURCE_DIR (g : globals) : path := joinpath (BASE_DIR g) ["resource"].
Definition SCRIPT_DIR (g : globals) : path := joinpath (RESOURCE_DIR g) ["oes"; "script"].
Definition PLAYBOOK_DIR (g : globals) : path := joinpath (RESOURCE_DIR g) ["oes"; "playbook"].

Definition trd_data_path (g : globals) : path :=
  joinpath (BASE_DIR g) ["config"; "TrdDateList.yaml"].

(** The four assignments that end [init_vars]. *)
Definition set_environment (g : globals) (ps : process) (vars : varset) : varset :=
  let vars := <["local_path_script_home" := Scalar (SStr (path_str (SCRIPT_DIR g)))]> vars in
  let vars := <["local_path_playbook_home" := Scalar (SStr (path_str (PLAYBOOK_DIR g)))]> vars in
  let vars := <["local_path_oes_home" := Scalar (SStr (path_str (OES_DIR g)))]> vars in
  <["local_python_interpreter" := Scalar (SStr (sys_executable ps))]> vars.

(** [init_vars(config_path, extravars)]. *)
Definition init_vars (g : globals) (ps : process) (fs : filesystem)
    (config_path : path) (extravars : string) : result varset :=
  let colony_path := joinpath config_path ["all"; "colony.yaml"] in
  match fragments fs !! colony_path with
  | None => Raise (FileNotFoundError colony_path)
  | Some colony =>
    let vars : varset := Scalar <$> colony in
    mon_node_id ← getkey colony "mon_node_id";
    mon_host ← load_mon_conf (MON_DIR g) (HOST_CONF_DIR g) fs mon_node_id;
    let vars := <["mon_host" := Dict mon_host]> vars in
    vars ← apply_overrides vars extravars;
    let trd_path := trd_data_path g in
    match calendars fs !! trd_path with
    | None => Raise (FileNotFoundError trd_path)
    | Some trd_dates =>
      vars ← set_if_absent "curr_date" (Ok (get_curr_date ps)) vars;
      curr_date ← getkey vars "curr_date";
      curr_date_int ← int_value curr_date;
      curr_year ← slice4 curr_date ≫= int_value;
      vars ← set_if_absent "next_trd_date"
               (next_trd_date trd_dates curr_date_int curr_year) vars;
      vars ← set_if_absent "pre_trd_date"
               (pre_trd_date trd_dates curr_date_int curr_year) vars;
      Ok (set_environment g ps vars)
    end
  end.

End Oes.

(** ** Vocabulary of the properties *)

(** A year's sequence is strictly ascending: each date is below the next. *)
Fixpoint strictly_ascending (l : list Z) : bool :=
  match l with
  | x :: l' =>
    match l' with
    | y :: _ => bool_decide (x < y) && strictly_ascending l'
    | [] => true
    end
  | [] => true
  end.

(** The value a returned dict holds under [k]; [None] when the key is not
    there or when the call raised. *)
Definition field {V} (r : result (gmap string V)) (k : string) : option V :=
  match r with
  | Ok d => d !! k
  | Raise _ => None
  end.

(** The call returned a dict and no key of it holds [v]. *)
Definition holds_nowhere (v : value) (r : result varset) : bool :=
  match r with
  | Ok d => bool_decide (map_Forall (λ _ x, x ≠ v) d)
  | Raise _ => false
  end.

(** An entry of a cluster root that [init_hosts] takes for a node
    directory: a directory with one of the three names. *)
Definition recognized (e : string * bool) : Prop :=
  e.2 = true ∧ e.1 ∈ node_dirs.

Global Instance recognized_dec e : Decision (recognized e).
Proof. unfold recognized. apply _. Defined.

(** What the design document says of one node directory [dir]: its role
    fragment names a host whose fragment exists, the record [host] has the
    fields of both with the host fragment's value on a collision, and
    [host_name] is [mds_{cluster-id}_{role}]. *)
Definition node_entry (g : Mds.globals) (fs : filesystem) (colony_num : string)
    (dir : path) (host_name : string) (host : record) : Prop :=
  ∃ node_data host_data host_id node_role,
    fragments fs !! joinpath dir ["node.yaml"] = Some node_data ∧
    node_data !! "host_id" = Some host_id ∧
    fragments fs !! host_file (Mds.HOST_CONF_DIR g) host_id = Some host_data ∧
    node_data !! "node_role" = Some node_role ∧
    host_name = "mds_" +:+ colony_num +:+ "_" +:+ str_scalar node_role ∧
    (∀ key v, host_data !! key = Some v → host !! key = Some v) ∧
    (∀ key, host_data !! key = None → host !! key = node_data !! key).

(** [mds_cluster_hosts[host_name] = host] for a pair [(host_name, host)]. *)
Definition insert_host (hosts : gmap string record) (kv : string * record) :
    gmap string record :=
  <[kv.1 := kv.2]> hosts.

(** The path [load_mon_conf] binds to [mon_path]. *)
Definition mon_file (MON_DIR : path) (mon_id : scalar) : path :=
  joinpath MON_DIR ["config"; str_scalar mon_id; "mon.yaml"].

(** [n] is the smallest element of [l] strictly greater than [d]. *)
Definition least_above (l : list Z) (d n : Z) : Prop :=
  n ∈ l ∧ d < n ∧ ∀ m, m ∈ l → d < m → n ≤ m.

(** The override string as the design document reads it: a list of entries
    separated by [;], an entry being [key=value] (the key holds no [=]) or
    a text without [=]. *)
Inductive entry :=
| KeyValue (key value : string)
| Malformed (text : string).

Definition render_entry (e : entry) : string :=
  match e with
  | KeyValue key value => key +:+ "=" +:+ value
  | Malformed text => text
  end.

Definition render_entries (es : list entry) : string :=
  Str.join ";" (render_entry <$> es).

(** No separator hides inside an entry. *)
Definition entry_ok (e : entry) : bool :=
  match e with
  | KeyValue key value =>
    negb (Str.contains "=" key) && negb (Str.contains ";" key)
    && negb (Str.contains ";" value)
  | Malformed text => negb (Str.contains "=" text) && negb (Str.contains ";" text)
  end.

(** What the document says one entry does to the variable set: a
    [key=value] entry sets the trimmed key to the trimmed value, any other
    entry is ignored. *)
Definition apply_entry (vars : varset) (e : entry) : varset :=
  match e with
  | KeyValue key value => <[Str.strip key := Scalar (SStr (Str.strip value))]> vars
  | Malformed _ => vars
  end.

(** [n] is the greatest element of [l] strictly less than [d]. *)
Definition greatest_below (l : list Z) (d n : Z) : Prop :=
  n ∈ l ∧ n < d ∧ ∀ m, m ∈ l → m < d → m ≤ n.

(** A string begins, or ends, with white space. *)
Definition starts_with_space (s : string) : bool :=
  match s with
  | String c _ => Str.isspace c
  | EmptyString => false
  end.

Fixpoint ends_with_space (s : string) : bool :=
  match s with
  | EmptyString => false
  | String c EmptyString => Str.isspace c
  | String _ s' => ends_with_space s'
  end.

(** No white space around [s]. *)
Definition trimmed (s : string) : bool :=
  negb (starts_with_space s) && negb (ends_with_space s).

(** The keys the mds [init_vars] writes after the override layer, and the
    keys the oes [init_vars] writes. *)
Definition mds_written : list string :=
  ["curr_date"; "next_trd_date"; "pre_trd_date"; "is_trading_day";
   "JOBS_RECORD_ID"; "JOBS_LOG_PATH"; "local_path_script_home";
   "local_path_playbook_home"; "local_path_mds_home"; "local_python_interpreter"].

Definition oes_written : list string :=
  ["curr_date"; "next_trd_date"; "pre_trd_date"; "local_path_script_home";
   "local_path_playbook_home"; "local_path_oes_home"; "local_python_interpreter"].

(** A value the override loop can store: a string without white space
    around. *)
Definition override_value (v : value) : Prop :=
  ∃ s, v = Scalar (SStr s) ∧ trimmed s = true.

(** The variable set after the first three layers, read key by key: the
    override dict [ov] first, then the embedded monitoring record under
    [mon_host], then the cluster-wide fragment. *)
Definition layers (colony mon_host : record) (ov : varset) (k : string) :
    option value :=
  match ov !! k with
  | Some v => Some v
  | None =>
    if decide (k = "mon_host"%string) then Some (Dict mon_host)
    else Scalar <$> colony !! k
  end.

(** How the three date fields of a returned set relate to what the earlier
    layers gave ([given]), the local date [today] and the calendar
    [trd_dates]: [curr_date] is the given one, else [today], and is a
    string that [int] reads, as is its four-character prefix; each of
    [next_trd_date] and [pre_trd_date] is the given value when there is
    one, and else what the calendar function returns for that date and
    year. *)
Definition date_fields (today : string) (trd_dates : calendar)
    (given : string → option value) (vars : varset) : Prop :=
  ∃ (s : string) (n y : Z),
    vars !! "curr_date" = Some (Scalar (SStr s)) ∧
    match given "curr_date"%string with
    | Some v => v = Scalar (SStr s)
    | None => s = today
    end ∧
    Str.to_int s = Some n ∧
    Str.to_int (Str.take 4 s) = Some y ∧
    match given "next_trd_date"%string with
    | Some v => vars !! "next_trd_date" = Some v
    | None => ∃ d, next_trd_date trd_dates n y = Ok d ∧
                   vars !! "next_trd_date" = Some (Scalar (SStr d))
    end ∧
    match given "pre_trd_date"%string with
    | Some v => vars !! "pre_trd_date" = Some v
    | None => ∃ d, pre_trd_date trd_dates n y = Ok d ∧
                   vars !! "pre_trd_date" = Some (Scalar (SStr d))
    end.

(** The part of the mds [init_vars] that follows the loading of the
    calendar, and the same part of the oes [init_vars]. *)
Definition mds_after_calendar (g : Mds.globals) (ps : process)
    (trd_dates : calendar) (vars : varset) : result varset :=
  vars ← set_if_absent "curr_date" (Ok (get_curr_date ps)) vars;
  curr_date ← getkey vars "curr_date";
  curr_date_int ← int_value curr_date;
  curr_year ← slice4 curr_date ≫= int_value;
  vars ← set_if_absent "next_trd_date"
           (next_trd_date trd_dates curr_date_int curr_year) vars;
  vars ← set_if_absent "pre_trd_date"
           (pre_trd_date trd_dates curr_date_int curr_year) vars;
  let trd_year := default [] (trd_dates !! trd_key curr_year) in
  curr_date ← getkey vars "curr_date";
  let vars := <["is_trading_day" := Scalar (SBool (value_in curr_date trd_year))]> vars in
  Ok (Mds.set_environment g ps vars).

Definition oes_after_calendar (g : Oes.globals) (ps : process)
    (trd_dates : calendar) (vars : varset) : result varset :=
  vars ← set_if_absent "curr_date" (Ok (get_curr_date ps)) vars;
  curr_date ← getkey vars "curr_date";
  curr_date_int ← int_value curr_date;
  curr_year ← slice4 curr_date ≫= int_value;
  vars ← set_if_absent "next_trd_date"
           (next_trd_date trd_dates curr_date_int curr_year) vars;
  vars ← set_if_absent "pre_trd_date"
           (pre_trd_date trd_dates curr_date_int curr_year) vars;
  Ok (Oes.set_environment g ps vars).

(** The nested calls the stepping from [date] to the trading day [n] makes:
    one when [date] is in the list (the neighbour is read by index), else
    one for each day stepped. *)
Definition calls_needed (l : list Z) (date n : Z) : nat :=
  if bool_decide (date ∈ l) then 1%nat else Z.to_nat (Z.abs (n - date)).

(** ** Sample inputs *)

(** A calendar with a long gap inside 2024 and a list for 2025. *)
Definition calendar_2024 : calendar :=
  {[ trd_key 2024 := [20240102; 20240103; 20240108; 20241231];
     trd_key 2025 := [20250102; 20250103] ]}.

(** The base set and the override entries of the precedence scenario, and
    a string with blanks, an entry without [=] and a value that holds a
    second [=]. *)
Definition region_base : varset := {[ "region" := Scalar (SStr "A") ]}.
Definition spaced_entries : list entry :=
  [KeyValue " region " " B "; Malformed "junk"; KeyValue "extra" "a=b"].

(** A deployment: the module globals of each script, the process, and a
    file tree with one mds cluster ["01"] whose root holds two node
    directories, a directory that is not a node and a plain file. *)
Definition sample_process : process :=
  {| environ := {[ "JOBS_RECORD_ID" := "42"; "JOBS_LOG_PATH" := "/var/log/job.log";
                   "JOBS_BASE_DIR" := "/opt/artweb";
                   "JOB_LOG_PATH" := "/var/log/job.log";
                   "JOB_BASE_DIR" := "/opt/artweb" ]}%string;
     sys_executable := "/usr/bin/python3";
     localtime_Ymd := "20240104" |}.

Definition mds_globals : Mds.globals :=
  {| Mds.JOBS_RECORD_ID := SStr "42";
     Mds.JOBS_LOG_PATH := "/var/log/job.log";
     Mds.JOBS_BASE_DIR := "/opt/artweb" |}.

Definition oes_globals : Oes.globals :=
  {| Oes.ANSIBLE_LOG_PATH := "/var/log/job.log";
     Oes.ANSIBLE_BASE_DIR := "/opt/artweb" |}.

Definition storage : path := ["/opt/artweb"; "storage"]%string.
Definition mds_root : path := storage ++ ["mds"; "config"; "01"]%string.
Definition oes_root : path := storage ++ ["oes"; "config"; "01"]%string.

Definition sample_colony : record :=
  {[ "mon_node_id" := SInt 1; "colony_num" := SStr "01"; "region" := SStr "A" ]}.

Definition sample_fragments : gmap path record :=
  {[ mds_root ++ ["all"; "colony.yaml"]%string := sample_colony;
     oes_root ++ ["all"; "colony.yaml"]%string := sample_colony;
     storage ++ ["mon"; "config"; "1"; "mon.yaml"]%string :=
       {[ "host_id" := SInt 7; "mon_port" := SInt 9000 ]};
     storage ++ ["host_vars"; "host_7.yaml"]%string :=
       {[ "ansible_host" := SStr "10.0.0.7" ]};
     mds_root ++ ["host_01"; "node.yaml"]%string :=
       {[ "host_id" := SInt 11; "node_role" := SStr "master";
          "network_zone" := SStr "role" ]};
     mds_root ++ ["host_02"; "node.yaml"]%string :=
       {[ "host_id" := SInt 12; "node_role" := SStr "slave" ]};
     storage ++ ["host_vars"; "host_11.yaml"]%string :=
       {[ "ansible_host" := SStr "10.0.0.11"; "network_zone" := SStr "dmz" ]};
     storage ++ ["host_vars"; "host_12.yaml"]%string :=
       {[ "ansible_host" := SStr "10.0.0.12" ]} ]}.

Definition sample_listing : list (string * bool) :=
  [("all", true); ("host_01", true); ("notes.txt", false);
   ("host_02", true); ("host_09", true)]%string.

Definition sample_fs : filesystem :=
  {| fragments := sample_fragments;
     calendars :=
       {[ storage ++ ["mds"; "mon"; "01"; "TrdDateList.yaml"]%string := calendar_2024;
          ["/opt/artweb"; "config"; "TrdDateList.yaml"]%string := calendar_2024 ]};
     listing := {[ mds_root := sample_listing ]} |}.

(** The same tree without any calendar file. *)
Definition fs_without_calendar : filesystem :=
  {| fragments := sample_fragments;
     calendars := ∅;
     listing := {[ mds_root := sample_listing ]} |}.

(** The same tree without the fragment of the monitoring host. *)
Definition fs_without_mon : filesystem :=
  {| fragments := delete (storage ++ ["mon"; "config"; "1"; "mon.yaml"]%string)
                    sample_fragments;
     calendars := calendars sample_fs;
     listing := listing sample_fs |}.

(** The same tree without the per-host fragment the monitoring host names. *)
Definition fs_without_mon_host : filesystem :=
  {| fragments := delete (storage ++ ["host_vars"; "host_7.yaml"]%string)
                    sample_fragments;
     calendars := calendars sample_fs;
     listing := listing sample_fs |}.

(** A tree in which both node directories declare the role [master]. *)
Definition fs_same_role : filesystem :=
  {| fragments :=
       <[ mds_root ++ ["host_02"; "node.yaml"]%string :=
            {[ "host_id" := SInt 12; "node_role" := SStr "master" ]} ]> sample_fragments;
     calendars := calendars sample_fs;
     listing := {[ mds_root := [("host_01", true); ("host_02", true)]%string ]} |}.

(** The directories of the sample tree and the monitoring record its files
    give. *)
Definition storage_mon : path := storage ++ ["mon"]%string.
Definition storage_host_vars : path := storage ++ ["host_vars"]%string.
Definition sample_mon_host : record :=
  merge_dicts {[ "host_id" := SInt 7; "mon_port" := SInt 9000 ]}
    {[ "ansible_host" := SStr "10.0.0.7" ]}.

(** The 2024 list of [calendar_2024]. *)
Definition dates_2024 : list Z := [20240102; 20240103; 20240108; 20241231].


(** * Properties *)

(** ** Lists of ints *)

Section int_lists.
Implicit Types (l : list Z) (x y : Z) (i j : nat).

Lemma contains_true x l : Py.contains x l = true ↔ x ∈ l.
Proof. unfold Py.contains. apply bool_decide_eq_true. Qed.

Lemma contains_false x l : Py.contains x l = false ↔ x ∉ l.
Proof. unfold Py.contains. apply bool_decide_eq_false. Qed.

Lemma index_lookup x l i : Py.index x l = Some i → l !! i = Some x.
Proof.
  revert i. induction l as [|y l IH]; intros i; simpl; [done|].
  case_bool_decide as Hxy.
  - intros [= <-]. by subst.
  - destruct (Py.index x l) as [k|]; simpl; [|done].
    intros [= <-]. by apply IH.
Qed.

Lemma index_first x l i j :
  Py.index x l = Some i → l !! j = Some x → (i ≤ j)%nat.
Proof.
  revert i j. induction l as [|y l IH]; intros i j; simpl; [done|].
  case_bool_decide as Hxy.
  - intros [= <-] _. lia.
  - destruct (Py.index x l) as [k|] eqn:Hk; simpl; [|done].
    intros [= <-]. destruct j as [|j]; simpl.
    + intros [= ->]. done.
    + intros Hj. specialize (IH k j eq_refl Hj). lia.
Qed.

Lemma index_elem_of x l : x ∈ l → is_Some (Py.index x l).
Proof.
  induction 1 as [y l|y z l _ IH]; simpl.
  - rewrite bool_decide_eq_true_2 by done. eauto.
  - case_bool_decide; [eauto|]. destruct IH as [k ->]. simpl. eauto.
Qed.

Lemma getitem_nat l i : Py.getitem l (Z.of_nat i) = l !! i.
Proof.
  unfold Py.getitem. rewrite bool_decide_eq_true_2 by lia.
  by rewrite Nat2Z.id.
Qed.

Lemma ascending_cons x l :
  strictly_ascending (x :: l) = true →
  strictly_ascending l = true ∧ ∀ y, y ∈ l → x < y.
Proof.
  revert x. induction l as [|z l IH]; intros x.
  - intros _. split; [done|]. intros y Hy. by apply elem_of_nil in Hy.
  - simpl. intros [Hxz Hl]%andb_true_iff. apply bool_decide_eq_true in Hxz.
    split; [exact Hl|].
    intros y [->|Hy]%elem_of_cons; [done|].
    destruct (IH z Hl) as [_ Hz]. specialize (Hz y Hy). lia.
Qed.

(** The positional reading of [strictly_ascending]. *)
Lemma ascending_lookup l i j x y :
  strictly_ascending l = true →
  l !! i = Some x → l !! j = Some y → (i < j)%nat → x < y.
Proof.
  revert i j. induction l as [|z l IH]; intros i j Hasc; [done|].
  destruct (ascending_cons _ _ Hasc) as [Hl Hz].
  destruct i as [|i], j as [|j]; simpl; try lia.
  - intros [= ->] Hy _. apply Hz. by eapply list_elem_of_lookup_2.
  - intros Hx Hy Hij. apply (IH i j); [done..|lia].
Qed.

Lemma ascending_lookup_inj l i j x :
  strictly_ascending l = true → l !! i = Some x → l !! j = Some x → i = j.
Proof.
  intros Hasc Hi Hj.
  destruct (Nat.lt_trichotomy i j) as [Hlt|[->|Hlt]]; [|done|].
  - pose proof (ascending_lookup _ _ _ _ _ Hasc Hi Hj Hlt). lia.
  - pose proof (ascending_lookup _ _ _ _ _ Hasc Hj Hi Hlt). lia.
Qed.

(** In a strictly ascending list the right neighbour of [x] is the least
    element above [x]. *)
Lemma ascending_neighbour l i x n :
  strictly_ascending l = true →
  l !! i = Some x → l !! S i = Some n → least_above l x n.
Proof.
  intros Hasc Hi Hn. split; [by eapply list_elem_of_lookup_2|]. split.
  - apply (ascending_lookup l i (S i)); auto with lia.
  - intros m [k Hk]%list_elem_of_lookup Hxm.
    destruct (decide (k = S i)) as [->|Hne]; [naive_solver lia|].
    destruct (decide (k ≤ i)%nat) as [Hle|Hgt].
    + destruct (decide (k = i)) as [->|Hki]; [naive_solver lia|].
      pose proof (ascending_lookup l k i m x Hasc Hk Hi). lia.
    + pose proof (ascending_lookup l (S i) k n m Hasc Hn Hk). lia.
Qed.

Lemma least_above_unique l d n n' :
  least_above l d n → least_above l d n' → n = n'.
Proof.
  intros (Hn & Hdn & Hmin) (Hn' & Hdn' & Hmin').
  specialize (Hmin n' Hn' Hdn'). specialize (Hmin' n Hn Hdn). lia.
Qed.

End int_lists.

(** ** The trading calendar *)

(** Closes [x ≠ y] when one of the two is in a list and the other is not. *)
Local Ltac subst_elem Heq :=
  match goal with
  | Hnot : _ ∉ _ |- _ => apply Hnot; first [by rewrite Heq | by rewrite <- Heq]
  end.

Section calendar.
Context (trd_dates : calendar) (the_year : Z).
Implicit Types (date : Z) (depth : nat) (l : list Z).

(** The list the two functions bind to [trdDateList]. *)
Let trdDateList : list Z := default [] (trd_dates !! trd_key the_year).

Lemma next_trd_date_rec_unfold depth date :
  next_trd_date_rec (S depth) trd_dates date the_year =
  if bool_decide (date = 0) then Some (Raise InvalidDateError) else
  match last trdDateList with
  | None => Some (Raise (CalendarGapError the_year))
  | Some final =>
    if bool_decide (final ≤ date) then
      match trd_dates !! trd_key (the_year + 1) with
      | Some (first :: _) => Some (Ok (pretty first))
      | Some [] | None => Some (Raise (CalendarGapError (the_year + 1)))
      end
    else if Py.contains date trdDateList then
      match Py.index date trdDateList with
      | None => Some (Raise ValueError)
      | Some index =>
        match Py.getitem trdDateList (Z.of_nat index + 1) with
        | Some next_date => Some (Ok (pretty next_date))
        | None => Some (Raise IndexError)
        end
      end
    else
      if Py.contains (date + 1) trdDateList then Some (Ok (pretty (date + 1)))
      else next_trd_date_rec depth trd_dates (date + 1) the_year
  end.
Proof. reflexivity. Qed.

Lemma pre_trd_date_rec_unfold depth date :
  pre_trd_date_rec (S depth) trd_dates date the_year =
  if bool_decide (date = 0) then Some (Raise InvalidDateError) else
  match head trdDateList with
  | None => Some (Raise (CalendarGapError the_year))
  | Some first =>
    if bool_decide (date ≤ first) then
      match last <$> trd_dates !! trd_key (the_year - 1) with
      | Some (Some final) => Some (Ok (pretty final))
      | Some None | None => Some (Raise (CalendarGapError (the_year - 1)))
      end
    else if Py.contains date trdDateList then
      match Py.index date trdDateList with
      | None => Some (Raise ValueError)
      | Some index =>
        match Py.getitem trdDateList (Z.of_nat index - 1) with
        | Some pre_date => Some (Ok (pretty pre_date))
        | None => Some (Raise IndexError)
        end
      end
    else
      if Py.contains (date - 1) trdDateList then Some (Ok (pretty (date - 1)))
      else pre_trd_date_rec depth trd_dates (date - 1) the_year
  end.
Proof. reflexivity. Qed.

(** A stack of [next_depth] frames is deep enough. *)
Lemma next_trd_date_rec_enough depth date :
  (next_depth trd_dates date the_year ≤ depth)%nat →
  is_Some (next_trd_date_rec depth trd_dates date the_year).
Proof.
  unfold next_depth. fold trdDateList.
  revert date. induction depth as [|depth IH]; intros date Hd.
  { destruct (last trdDateList); lia. }
  rewrite next_trd_date_rec_unfold.
  case_bool_decide; [eauto|].
  destruct (last trdDateList) as [final|] eqn:Hlast; [|eauto].
  case_bool_decide as Hge.
  { destruct (trd_dates !! trd_key (the_year + 1)) as [[|??]|]; eauto. }
  destruct (Py.contains date trdDateList).
  { destruct (Py.index date trdDateList); [|eauto].
    destruct (Py.getitem trdDateList _); eauto. }
  destruct (Py.contains (date + 1) trdDateList) eqn:Hnext; [eauto|].
  apply IH. lia.
Qed.

Lemma pre_trd_date_rec_enough depth date :
  (pre_depth trd_dates date the_year ≤ depth)%nat →
  is_Some (pre_trd_date_rec depth trd_dates date the_year).
Proof.
  unfold pre_depth. fold trdDateList.
  revert date. induction depth as [|depth IH]; intros date Hd.
  { destruct (head trdDateList); lia. }
  rewrite pre_trd_date_rec_unfold.
  case_bool_decide; [eauto|].
  destruct (head trdDateList) as [first|] eqn:Hhead; [|eauto].
  case_bool_decide as Hle.
  { destruct (last <$> trd_dates !! trd_key (the_year - 1)) as [[|]|]; eauto. }
  destruct (Py.contains date trdDateList).
  { destruct (Py.index date trdDateList); [|eauto].
    destruct (Py.getitem trdDateList _); eauto. }
  destruct (Py.contains (date - 1) trdDateList) eqn:Hnext; [eauto|].
  apply IH. lia.
Qed.

(** A deeper stack gives the same answer. *)
Lemma next_trd_date_rec_mono depth depth' date r :
  next_trd_date_rec depth trd_dates date the_year = Some r →
  (depth ≤ depth')%nat →
  next_trd_date_rec depth' trd_dates date the_year = Some r.
Proof.
  revert depth' date. induction depth as [|depth IH]; intros depth' date; [done|].
  intros Hr Hle. destruct depth' as [|depth']; [lia|].
  rewrite next_trd_date_rec_unfold in Hr |- *.
  repeat (case_bool_decide || case_match); try done.
  apply IH; [done|lia].
Qed.

Lemma pre_trd_date_rec_mono depth depth' date r :
  pre_trd_date_rec depth trd_dates date the_year = Some r →
  (depth ≤ depth')%nat →
  pre_trd_date_rec depth' trd_dates date the_year = Some r.
Proof.
  revert depth' date. induction depth as [|depth IH]; intros depth' date; [done|].
  intros Hr Hle. destruct depth' as [|depth']; [lia|].
  rewrite pre_trd_date_rec_unfold in Hr |- *.
  repeat (case_bool_decide || case_match); try done.
  apply IH; [done|lia].
Qed.

(** The functions are what their recursion returns on any stack that is
    deep enough. *)
Lemma next_trd_date_eq depth date r :
  next_trd_date_rec depth trd_dates date the_year = Some r →
  next_trd_date trd_dates date the_year = r.
Proof.
  intros Hr. unfold next_trd_date.
  destruct (next_trd_date_rec_enough _ date (Nat.le_refl _)) as [r' Hr'].
  rewrite Hr'. simpl.
  destruct (Nat.le_ge_cases depth (next_depth trd_dates date the_year)).
  - rewrite (next_trd_date_rec_mono _ _ _ _ Hr) in Hr' by done. congruence.
  - rewrite (next_trd_date_rec_mono _ _ _ _ Hr') in Hr by done. congruence.
Qed.

Lemma pre_trd_date_eq depth date r :
  pre_trd_date_rec depth trd_dates date the_year = Some r →
  pre_trd_date trd_dates date the_year = r.
Proof.
  intros Hr. unfold pre_trd_date.
  destruct (pre_trd_date_rec_enough _ date (Nat.le_refl _)) as [r' Hr'].
  rewrite Hr'. simpl.
  destruct (Nat.le_ge_cases depth (pre_depth trd_dates date the_year)).
  - rewrite (pre_trd_date_rec_mono _ _ _ _ Hr) in Hr' by done. congruence.
  - rewrite (pre_trd_date_rec_mono _ _ _ _ Hr') in Hr by done. congruence.
Qed.

(** Stepping forward from a date outside the list reaches the least
    element above it, unless the walk passes through the empty date 0. *)
Lemma next_trd_date_rec_walk final depth date :
  last trdDateList = Some final →
  date < final → date ∉ trdDateList →
  (0 < date ∨ ∃ e, e ∈ trdDateList ∧ date < e ≤ 0) →
  (Z.to_nat (final - date) ≤ depth)%nat →
  ∃ n, least_above trdDateList date n ∧
       next_trd_date_rec depth trd_dates date the_year = Some (Ok (pretty n)).
Proof.
  intros Hlast. pose proof (last_Some_elem_of _ _ Hlast) as Hfinal.
  revert date. induction depth as [|depth IH]; intros date Hlt Hnot Hpos Hd; [lia|].
  rewrite next_trd_date_rec_unfold, Hlast.
  rewrite bool_decide_eq_false_2 by (destruct Hpos as [|(e & _ & ?)]; lia).
  rewrite bool_decide_eq_false_2 by lia.
  rewrite (proj2 (contains_false _ _) Hnot).
  destruct (Py.contains (date + 1) trdDateList) eqn:Hnext.
  - apply contains_true in Hnext. exists (date + 1). split; [|done].
    split; [done|]. split; [lia|]. intros m _ ?. lia.
  - apply contains_false in Hnext.
    assert (date + 1 ≠ final) by (intros Heq; subst_elem Heq).
    destruct (IH (date + 1)) as (n & (Hn & Hdn & Hmin) & Hrec); [lia|done| |lia|].
    { destruct Hpos as [|(e & He & ?)]; [left; lia|].
      right. exists e. split; [done|].
      assert (e ≠ date + 1) by (intros Heq; subst_elem Heq). lia. }
    exists n. split; [|done]. split; [done|]. split; [lia|].
    intros m Hm Hdm. apply Hmin; [done|].
    assert (m ≠ date + 1) by (intros Heq; subst_elem Heq). lia.
Qed.

(** Stepping backward from a date outside the list reaches the greatest
    element below it, unless the walk passes through the empty date 0. *)
Lemma pre_trd_date_rec_walk first depth date :
  head trdDateList = Some first →
  first < date → date ∉ trdDateList →
  (date < 0 ∨ ∃ e, e ∈ trdDateList ∧ 0 ≤ e < date) →
  (Z.to_nat (date - first) ≤ depth)%nat →
  ∃ n, (n ∈ trdDateList ∧ n < date ∧ ∀ m, m ∈ trdDateList → m < date → m ≤ n) ∧
       pre_trd_date_rec depth trd_dates date the_year = Some (Ok (pretty n)).
Proof.
  intros Hhead. pose proof (head_Some_elem_of _ _ Hhead) as Hfirst.
  revert date. induction depth as [|depth IH]; intros date Hlt Hnot Hpos Hd; [lia|].
  rewrite pre_trd_date_rec_unfold, Hhead.
  rewrite bool_decide_eq_false_2 by (destruct Hpos as [|(e & _ & ?)]; lia).
  rewrite bool_decide_eq_false_2 by lia.
  rewrite (proj2 (contains_false _ _) Hnot).
  destruct (Py.contains (date - 1) trdDateList) eqn:Hnext.
  - apply contains_true in Hnext. exists (date - 1). split; [|done].
    split; [done|]. split; [lia|]. intros m _ ?. lia.
  - apply contains_false in Hnext.
    assert (date - 1 ≠ first) by (intros Heq; subst_elem Heq).
    destruct (IH (date - 1)) as (n & (Hn & Hdn & Hmax) & Hrec); [lia|done| |lia|].
    { destruct Hpos as [|(e & He & ?)]; [left; lia|].
      right. exists e. split; [done|].
      assert (e ≠ date - 1) by (intros Heq; subst_elem Heq). lia. }
    exists n. split; [|done]. split; [done|]. split; [lia|].
    intros m Hm Hdm. apply Hmax; [done|].
    assert (m ≠ date - 1) by (intros Heq; subst_elem Heq). lia.
Qed.

(** The walk forward from a date outside the list takes one call per day:
    with that many frames it returns the least element above, with fewer
    the stack runs out. *)
Lemma next_trd_date_rec_exact final depth date n :
  last trdDateList = Some final →
  date < final → date ∉ trdDateList →
  (0 < date ∨ n ≤ 0) →
  least_above trdDateList date n →
  (Z.to_nat (n - date) ≤ depth)%nat →
  next_trd_date_rec depth trd_dates date the_year = Some (Ok (pretty n)).
Proof.
  intros Hlast. pose proof (last_Some_elem_of _ _ Hlast) as Hfinal.
  revert date. induction depth as [|depth IH];
    intros date Hlt Hnot Hpos (Hn & Hdn & Hmin) Hd; [lia|].
  rewrite next_trd_date_rec_unfold, Hlast.
  rewrite bool_decide_eq_false_2 by lia.
  rewrite bool_decide_eq_false_2 by lia.
  rewrite (proj2 (contains_false _ _) Hnot).
  destruct (Py.contains (date + 1) trdDateList) eqn:Hnext.
  - apply contains_true in Hnext. specialize (Hmin _ Hnext ltac:(lia)).
    by replace n with (date + 1) by lia.
  - apply contains_false in Hnext.
    assert (date + 1 ≠ final) by (intros Heq; subst_elem Heq).
    assert (date + 1 ≠ n) by (intros Heq; subst_elem Heq).
    apply IH; [lia|done|lia| |lia].
    split; [done|]. split; [lia|]. intros m Hm Hdm. apply Hmin; [done|lia].
Qed.

Lemma next_trd_date_rec_short final depth date n :
  last trdDateList = Some final →
  date < final → date ∉ trdDateList →
  (0 < date ∨ n ≤ 0) →
  least_above trdDateList date n →
  (depth < Z.to_nat (n - date))%nat →
  next_trd_date_rec depth trd_dates date the_year = None.
Proof.
  intros Hlast. pose proof (last_Some_elem_of _ _ Hlast) as Hfinal.
  revert date. induction depth as [|depth IH];
    intros date Hlt Hnot Hpos (Hn & Hdn & Hmin) Hd; [done|].
  assert (date + 1 ∉ trdDateList) as Hnext.
  { intros Hin. specialize (Hmin _ Hin ltac:(lia)). lia. }
  rewrite next_trd_date_rec_unfold, Hlast.
  rewrite bool_decide_eq_false_2 by lia.
  rewrite bool_decide_eq_false_2 by lia.
  rewrite (proj2 (contains_false _ _) Hnot), (proj2 (contains_false _ _) Hnext).
  assert (date + 1 ≠ final) by (intros Heq; subst_elem Heq).
  apply IH; [lia|done|lia| |lia].
  split; [done|]. split; [lia|]. intros m Hm Hdm. apply Hmin; [done|lia].
Qed.

Lemma pre_trd_date_rec_exact first depth date n :
  head trdDateList = Some first →
  first < date → date ∉ trdDateList →
  (date < 0 ∨ 0 ≤ n) →
  (n ∈ trdDateList ∧ n < date ∧ ∀ m, m ∈ trdDateList → m < date → m ≤ n) →
  (Z.to_nat (date - n) ≤ depth)%nat →
  pre_trd_date_rec depth trd_dates date the_year = Some (Ok (pretty n)).
Proof.
  intros Hhead. pose proof (head_Some_elem_of _ _ Hhead) as Hfirst.
  revert date. induction depth as [|depth IH];
    intros date Hlt Hnot Hpos (Hn & Hdn & Hmax) Hd; [lia|].
  rewrite pre_trd_date_rec_unfold, Hhead.
  rewrite bool_decide_eq_false_2 by lia.
  rewrite bool_decide_eq_false_2 by lia.
  rewrite (proj2 (contains_false _ _) Hnot).
  destruct (Py.contains (date - 1) trdDateList) eqn:Hnext.
  - apply contains_true in Hnext. specialize (Hmax _ Hnext ltac:(lia)).
    by replace n with (date - 1) by lia.
  - apply contains_false in Hnext.
    assert (date - 1 ≠ first) by (intros Heq; subst_elem Heq).
    assert (date - 1 ≠ n) by (intros Heq; subst_elem Heq).
    apply IH; [lia|done|lia| |lia].
    split; [done|]. split; [lia|]. intros m Hm Hdm. apply Hmax; [done|lia].
Qed.

Lemma pre_trd_date_rec_short first depth date n :
  head trdDateList = Some first →
  first < date → date ∉ trdDateList →
  (date < 0 ∨ 0 ≤ n) →
  (n ∈ trdDateList ∧ n < date ∧ ∀ m, m ∈ trdDateList → m < date → m ≤ n) →
  (depth < Z.to_nat (date - n))%nat →
  pre_trd_date_rec depth trd_dates date the_year = None.
Proof.
  intros Hhead. pose proof (head_Some_elem_of _ _ Hhead) as Hfirst.
  revert date. induction depth as [|depth IH];
    intros date Hlt Hnot Hpos (Hn & Hdn & Hmax) Hd; [done|].
  assert (date - 1 ∉ trdDateList) as Hnext.
  { intros Hin. specialize (Hmax _ Hin ltac:(lia)). lia. }
  rewrite pre_trd_date_rec_unfold, Hhead.
  rewrite bool_decide_eq_false_2 by lia.
  rewrite bool_decide_eq_false_2 by lia.
  rewrite (proj2 (contains_false _ _) Hnot), (proj2 (contains_false _ _) Hnext).
  assert (date - 1 ≠ first) by (intros Heq; subst_elem Heq).
  apply IH; [lia|done|lia| |lia].
  split; [done|]. split; [lia|]. intros m Hm Hdm. apply Hmax; [done|lia].
Qed.

End calendar.

(** From a trading day the neighbour is read by index, in one call. *)
Lemma next_trd_date_rec_member (trd_dates : calendar) (the_year date : Z)
    (l : list Z) (final : Z) (i : nat) (n : Z) (depth : nat) :
  trd_dates !! trd_key the_year = Some l →
  last l = Some final → date ≠ 0 → date < final →
  Py.index date l = Some i → l !! S i = Some n →
  next_trd_date_rec (S depth) trd_dates date the_year = Some (Ok (pretty n)).
Proof.
  intros Hl Hlast Hnz Hlt Hi Hn.
  rewrite next_trd_date_rec_unfold, Hl. simpl. rewrite Hlast.
  rewrite bool_decide_eq_false_2 by done.
  rewrite bool_decide_eq_false_2 by lia.
  rewrite (proj2 (contains_true _ _))
    by (eapply list_elem_of_lookup_2, index_lookup; exact Hi).
  rewrite Hi. replace (Z.of_nat i + 1) with (Z.of_nat (S i)) by lia.
  by rewrite getitem_nat, Hn.
Qed.

(** C1, as amended. For a calendar whose list for [the_year] is strictly
    ascending and a nonzero [date] strictly below the last element of that
    list that is positive (or, when negative, is in the list or has an
    element of the list above it that is at most 0), the smallest element
    [n] of the list strictly greater than [date] exists, is the element at
    [index(date) + 1] when [date] is in the list, and [next_trd_date]
    returns it as a decimal string whenever the stack has room for the
    nested calls the stepping makes: one call when [date] is in the list,
    else [n - date] calls, one per day stepped. With less room the call
    raises [RecursionError]. *)
Theorem next_trd_date_least_above (trd_dates : calendar) (the_year date : Z)
    (l : list Z) (final : Z) (frames : nat) :
  trd_dates !! trd_key the_year = Some l →
  strictly_ascending l = true →
  last l = Some final →
  date ≠ 0 →
  date < final →
  (date ∈ l ∨ 0 < date ∨ ∃ e, e ∈ l ∧ date < e ≤ 0) →
  ∃ n, least_above l date n ∧
       (∀ i, l !! i = Some date → l !! S i = Some n) ∧
       ((calls_needed l date n ≤ frames)%nat →
        next_trd_date_within frames trd_dates date the_year = Ok (pretty n)) ∧
       ((frames < calls_needed l date n)%nat →
        next_trd_date_within frames trd_dates date the_year = Raise RecursionError).
Proof.
  intros Hl Hasc Hlast Hnz Hlt Hcase.
  assert (default [] (trd_dates !! trd_key the_year) = l) as Hdef by (by rewrite Hl).
  unfold next_trd_date_within, calls_needed.
  destruct (decide (date ∈ l)) as [Hin|Hnot].
  - rewrite bool_decide_eq_true_2 by done.
    destruct (index_elem_of _ _ Hin) as [i Hi].
    pose proof (index_lookup _ _ _ Hi) as Hli.
    assert (is_Some (l !! S i)) as [n Hn].
    { apply lookup_lt_is_Some. pose proof (lookup_lt_Some _ _ _ Hli).
      destruct (decide (S i = length l)) as [Heq|]; [|lia].
      rewrite last_lookup, <- Heq in Hlast. simpl in Hlast.
      rewrite Hli in Hlast. injection Hlast as ->. lia. }
    exists n. split; [by eapply ascending_neighbour|]. split; [|split].
    + intros j Hj. by rewrite <- (ascending_lookup_inj _ _ _ _ Hasc Hli Hj).
    + intros Hframes. destruct frames as [|frames]; [lia|].
      by rewrite (next_trd_date_rec_member _ _ _ _ _ _ _ _ Hl Hlast Hnz Hlt Hi Hn).
    + intros Hframes. by replace frames with 0%nat by lia.
  - rewrite bool_decide_eq_false_2 by done.
    assert (0 < date ∨ ∃ e, e ∈ l ∧ date < e ≤ 0) as Hpos by tauto.
    rewrite <- Hdef in Hlast, Hnot, Hpos.
    destruct (next_trd_date_rec_walk trd_dates the_year final
                (Z.to_nat (final - date)) date) as (n & Hleast & _); [done..|].
    assert (0 < date ∨ n ≤ 0) as Hsign.
    { destruct Hpos as [|(e & He & Hle)]; [by left|right].
      destruct Hleast as (_ & _ & Hmin). specialize (Hmin e He ltac:(lia)). lia. }
    assert (Z.abs (n - date) = n - date) as Habs
      by (destruct Hleast as (_ & ? & _); lia).
    exists n. rewrite Habs. split; [by rewrite <- Hdef|]. split; [|split].
    + intros i Hi. destruct Hnot. rewrite Hdef. by eapply list_elem_of_lookup_2.
    + intros Hframes.
      by rewrite (next_trd_date_rec_exact trd_dates the_year final frames date n).
    + intros Hframes.
      by rewrite (next_trd_date_rec_short trd_dates the_year final frames date n).
Qed.

Lemma next_trd_date_least_above_witness :
  ∃ n : Z,
    least_above dates_2024 20240104 n ∧
    (∀ i, dates_2024 !! i = Some 20240104 →
          dates_2024 !! S i = Some n) ∧
    ((calls_needed dates_2024 20240104 n
      ≤ cpython_recursion_limit)%nat →
     next_trd_date_within cpython_recursion_limit calendar_2024 20240104 2024
     = Ok (pretty n)) ∧
    ((cpython_recursion_limit
      < calls_needed dates_2024 20240104 n)%nat →
     next_trd_date_within cpython_recursion_limit calendar_2024 20240104 2024
     = Raise RecursionError).
Proof.
  apply (next_trd_date_least_above calendar_2024 2024 20240104
           dates_2024 20241231 cpython_recursion_limit).
  - reflexivity.
  - reflexivity.
  - reflexivity.
  - lia.
  - lia.
  - right; left; lia.
Defined.

(** C1 as first stated fails on a long gap. The 2024 list of
    [calendar_2024] is strictly ascending, 20240109 is a date of that year
    below its last element, and the smallest element above it is 20241231;
    the stepping from 20240109 needs 1122 nested calls, so on a stack of
    1000 frames, CPython's limit, the call raises [RecursionError] instead
    of returning 20241231. *)
Lemma next_trd_date_beyond_the_stack :
  calendar_2024 !! trd_key 2024 = Some dates_2024 ∧
  strictly_ascending dates_2024 = true ∧
  last dates_2024 = Some 20241231 ∧
  20240109 ≠ 0 ∧ 20240109 < 20241231 ∧
  least_above dates_2024 20240109 20241231 ∧
  calls_needed dates_2024 20240109 20241231 = 1122%nat ∧
  next_trd_date_within cpython_recursion_limit calendar_2024 20240109 2024
  = Raise RecursionError ∧
  ¬ ∃ n : Z, next_trd_date_within cpython_recursion_limit calendar_2024 20240109 2024
             = Ok (pretty n).
Proof.
  assert (next_trd_date_within cpython_recursion_limit calendar_2024 20240109 2024
          = Raise RecursionError) as Hr by (vm_compute; reflexivity).
  split; [reflexivity|]. split; [reflexivity|]. split; [reflexivity|].
  split; [lia|]. split; [lia|]. split; [|split; [|split]].
  - split; [by apply (bool_decide_unpack _)|]. split; [lia|].
    intros m Hm Hlt. unfold dates_2024 in Hm.
    clear Hr. repeat (apply elem_of_cons in Hm as [->|Hm]; [lia|]).
    apply elem_of_nil in Hm. destruct Hm.
  - vm_compute. reflexivity.
  - exact Hr.
  - intros [n Hn]. rewrite Hr in Hn. discriminate.
Qed.

(** C2. For a nonzero [date] at or past the last element of its year's
    list, [next_trd_date] returns the first element of the list of
    [the_year + 1] when that list is there, and raises [CalendarGapError]
    when it is missing (or empty); for a nonzero [date] at or before the
    first element of its year's list, [pre_trd_date] returns the last
    element of the list of [the_year - 1] when that list is there, and
    raises [CalendarGapError] when it is missing (or empty). *)
Theorem trd_date_year_rollover (trd_dates : calendar) (the_year date : Z)
    (l : list Z) :
  trd_dates !! trd_key the_year = Some l →
  date ≠ 0 →
  (∀ final, last l = Some final → final ≤ date →
     (∀ first rest, trd_dates !! trd_key (the_year + 1) = Some (first :: rest) →
        next_trd_date trd_dates date the_year = Ok (pretty first)) ∧
     (trd_dates !! trd_key (the_year + 1) = None ∨
      trd_dates !! trd_key (the_year + 1) = Some [] →
        next_trd_date trd_dates date the_year = Raise (CalendarGapError (the_year + 1)))) ∧
  (∀ first, head l = Some first → date ≤ first →
     (∀ l' final', trd_dates !! trd_key (the_year - 1) = Some l' →
        last l' = Some final' →
        pre_trd_date trd_dates date the_year = Ok (pretty final')) ∧
     (trd_dates !! trd_key (the_year - 1) = None ∨
      trd_dates !! trd_key (the_year - 1) = Some [] →
        pre_trd_date trd_dates date the_year = Raise (CalendarGapError (the_year - 1)))).
Proof.
  intros Hl Hnz. split.
  - intros final Hlast Hge.
    assert (∀ r, next_trd_date_rec 1 trd_dates date the_year = Some r →
                 next_trd_date trd_dates date the_year = r) as Heq
      by (intros r; apply next_trd_date_eq).
    rewrite next_trd_date_rec_unfold, Hl in Heq. simpl in Heq.
    rewrite Hlast in Heq.
    rewrite bool_decide_eq_false_2, bool_decide_eq_true_2 in Heq by done.
    split.
    + intros first rest Hnew. rewrite Hnew in Heq. by apply Heq.
    + intros [Hnew|Hnew]; rewrite Hnew in Heq; by apply Heq.
  - intros first Hhead Hle.
    assert (∀ r, pre_trd_date_rec 1 trd_dates date the_year = Some r →
                 pre_trd_date trd_dates date the_year = r) as Heq
      by (intros r; apply pre_trd_date_eq).
    rewrite pre_trd_date_rec_unfold, Hl in Heq. simpl in Heq.
    rewrite Hhead in Heq.
    rewrite bool_decide_eq_false_2, bool_decide_eq_true_2 in Heq by done.
    split.
    + intros l' final' Hold Hlast. rewrite Hold in Heq. simpl in Heq.
      rewrite Hlast in Heq. by apply Heq.
    + intros [Hold|Hold]; rewrite Hold in Heq; by apply Heq.
Qed.

Lemma trd_date_year_rollover_witness :
  next_trd_date calendar_2024 20241231 2024 = Ok (pretty 20250102) ∧
  pre_trd_date calendar_2024 20240102 2024 = Raise (CalendarGapError 2023) ∧
  pre_trd_date calendar_2024 20250102 2025 = Ok (pretty 20241231) ∧
  next_trd_date calendar_2024 20250103 2025 = Raise (CalendarGapError 2026).
Proof.
  assert (calendar_2024 !! trd_key 2024
          = Some [20240102; 20240103; 20240108; 20241231]) as H24 by reflexivity.
  assert (calendar_2024 !! trd_key 2025 = Some [20250102; 20250103]) as H25
    by reflexivity.
  destruct (trd_date_year_rollover calendar_2024 2024 20241231 _ H24) as [Hn _]; [lia|].
  destruct (trd_date_year_rollover calendar_2024 2024 20240102 _ H24) as [_ Hp]; [lia|].
  destruct (trd_date_year_rollover calendar_2024 2025 20250102 _ H25) as [_ Hp']; [lia|].
  destruct (trd_date_year_rollover calendar_2024 2025 20250103 _ H25) as [Hn' _]; [lia|].
  destruct (Hn 20241231) as [Hn_ok _]; [reflexivity|lia|].
  destruct (Hp 20240102) as [_ Hp_gap]; [reflexivity|lia|].
  destruct (Hp' 20250102) as [Hp_ok _]; [reflexivity|lia|].
  destruct (Hn' 20250103) as [_ Hn_gap]; [reflexivity|lia|].
  split; [|split; [|split]].
  - apply (Hn_ok 20250102 [20250103]). reflexivity.
  - apply Hp_gap. left. reflexivity.
  - apply (Hp_ok [20240102; 20240103; 20240108; 20241231]); reflexivity.
  - apply Hn_gap. left. reflexivity.
Defined.

(** C7. For a calendar with a non-empty list for the queried year and a
    nonzero [date], the day-stepping of [next_trd_date] and of
    [pre_trd_date] terminates: a stack of [next_depth] (of [pre_depth])
    frames, or any deeper one, yields the function's result, whatever the
    length of the gap; and each recursive call, made when [date] and its
    neighbour are both outside the list and [date] is inside the year's
    span, is on the date one unit closer to the end of the span, with a
    depth one less. *)
Theorem day_stepping_terminates (trd_dates : calendar) (the_year date : Z)
    (l : list Z) :
  trd_dates !! trd_key the_year = Some l →
  l ≠ [] →
  date ≠ 0 →
  (∀ depth, (next_depth trd_dates date the_year ≤ depth)%nat →
     next_trd_date_rec depth trd_dates date the_year
     = Some (next_trd_date trd_dates date the_year)) ∧
  (∀ depth, (pre_depth trd_dates date the_year ≤ depth)%nat →
     pre_trd_date_rec depth trd_dates date the_year
     = Some (pre_trd_date trd_dates date the_year)) ∧
  (∀ final depth, last l = Some final → date < final →
     date ∉ l → date + 1 ∉ l →
     next_trd_date_rec (S depth) trd_dates date the_year
     = next_trd_date_rec depth trd_dates (date + 1) the_year ∧
     date + 1 < final ∧
     next_depth trd_dates date the_year
     = S (next_depth trd_dates (date + 1) the_year)) ∧
  (∀ first depth, head l = Some first → first < date →
     date ∉ l → date - 1 ∉ l →
     pre_trd_date_rec (S depth) trd_dates date the_year
     = pre_trd_date_rec depth trd_dates (date - 1) the_year ∧
     first < date - 1 ∧
     pre_depth trd_dates date the_year
     = S (pre_depth trd_dates (date - 1) the_year)).
Proof.
  intros Hl Hne Hnz. split; [|split; [|split]].
  - intros depth Hd.
    destruct (next_trd_date_rec_enough _ _ _ _ Hd) as [r Hr].
    by rewrite Hr, (next_trd_date_eq _ _ _ _ _ Hr).
  - intros depth Hd.
    destruct (pre_trd_date_rec_enough _ _ _ _ Hd) as [r Hr].
    by rewrite Hr, (pre_trd_date_eq _ _ _ _ _ Hr).
  - intros final depth Hlast Hlt Hnot Hnot'.
    assert (date + 1 ≠ final).
    { intros Heq. apply Hnot'. rewrite Heq. by apply last_Some_elem_of. }
    split; [|split; [lia|]].
    + rewrite next_trd_date_rec_unfold, Hl. simpl. rewrite Hlast.
      rewrite bool_decide_eq_false_2 by done.
      rewrite bool_decide_eq_false_2 by lia.
      by rewrite (proj2 (contains_false _ _) Hnot), (proj2 (contains_false _ _) Hnot').
    + unfold next_depth. rewrite Hl. simpl. rewrite Hlast. lia.
  - intros first depth Hhead Hlt Hnot Hnot'.
    assert (date - 1 ≠ first).
    { intros Heq. apply Hnot'. rewrite Heq. by apply head_Some_elem_of. }
    split; [|split; [lia|]].
    + rewrite pre_trd_date_rec_unfold, Hl. simpl. rewrite Hhead.
      rewrite bool_decide_eq_false_2 by done.
      rewrite bool_decide_eq_false_2 by lia.
      by rewrite (proj2 (contains_false _ _) Hnot), (proj2 (contains_false _ _) Hnot').
    + unfold pre_depth. rewrite Hl. simpl. rewrite Hhead. lia.
Qed.

Lemma day_stepping_terminates_witness :
  next_trd_date_rec 2000 calendar_2024 20240109 2024
  = Some (next_trd_date calendar_2024 20240109 2024) ∧
  pre_trd_date_rec 10 calendar_2024 20240109 2024
  = Some (pre_trd_date calendar_2024 20240109 2024).
Proof.
  destruct (day_stepping_terminates calendar_2024 2024 20240109
              [20240102; 20240103; 20240108; 20241231])
    as (Hnext & Hpre & _); [reflexivity|discriminate|lia|].
  split.
  - apply Hnext. vm_compute. lia.
  - apply Hpre. vm_compute. lia.
Defined.

(** ** Strings *)

Section strings.
Implicit Types (s t : string) (c sep : ascii).

Lemma app_cons c s t : String c s +:+ t = String c (s +:+ t).
Proof. reflexivity. Qed.

Lemma app_empty_l t : EmptyString +:+ t = t.
Proof. reflexivity. Qed.

Lemma contains_app sep s t :
  Str.contains sep (s +:+ t) = Str.contains sep s || Str.contains sep t.
Proof.
  induction s as [|c s IH]; [done|].
  rewrite ?app_cons. simpl. rewrite IH. by rewrite orb_assoc.
Qed.

Lemma contains_sep_cons sep t : Str.contains sep (String sep t) = true.
Proof. simpl. by rewrite bool_decide_eq_true_2. Qed.

Lemma split_nonempty sep s : Str.split sep s ≠ [].
Proof.
  destruct s as [|c s]; simpl; [done|].
  case_bool_decide; [done|]. by destruct (Str.split sep s).
Qed.

Lemma split_no_sep sep s : Str.contains sep s = false → Str.split sep s = [s].
Proof.
  induction s as [|c s IH]; simpl; [done|].
  intros [Hc Hs]%orb_false_iff. rewrite Hc. by rewrite IH.
Qed.

Lemma split_app_sep sep s t :
  Str.contains sep s = false →
  Str.split sep (s +:+ String sep t) = s :: Str.split sep t.
Proof.
  induction s as [|c s IH]; simpl.
  - intros _. rewrite ?app_empty_l. simpl. by rewrite bool_decide_eq_true_2.
  - intros [Hc Hs]%orb_false_iff. rewrite ?app_cons. simpl.
    rewrite Hc. by rewrite IH.
Qed.

Lemma split_join sep (items : list string) :
  items ≠ [] →
  Forall (λ item, Str.contains sep item = false) items →
  Str.split sep (Str.join (String sep EmptyString) items) = items.
Proof.
  intros Hne Hall. induction Hall as [|item items Hitem Hitems IH]; [done|].
  destruct items as [|item' items]; simpl.
  - by apply split_no_sep.
  - change (Str.split sep (item +:+ String sep (Str.join (String sep EmptyString) (item' :: items)))
            = item :: item' :: items).
    rewrite split_app_sep by done. by rewrite IH.
Qed.

Lemma split1_no_sep sep s : Str.contains sep s = false → Str.split1 sep s = [s].
Proof.
  induction s as [|c s IH]; simpl; [done|].
  intros [Hc Hs]%orb_false_iff. rewrite Hc. by rewrite IH.
Qed.

(** [s.split(sep, 1)] cuts at the first [sep]. *)
Lemma split1_app_sep sep s t :
  Str.contains sep s = false →
  Str.split1 sep (s +:+ String sep t) = [s; t].
Proof.
  induction s as [|c s IH]; simpl.
  - intros _. rewrite ?app_empty_l. simpl. by rewrite bool_decide_eq_true_2.
  - intros [Hc Hs]%orb_false_iff. rewrite ?app_cons. simpl.
    rewrite Hc. by rewrite IH.
Qed.

(** A string that holds [sep] always splits in two. *)
Lemma split1_two sep s :
  Str.contains sep s = true → ∃ key value, Str.split1 sep s = [key; value].
Proof.
  induction s as [|c s IH]; simpl; [done|].
  case_bool_decide; simpl; [eauto|].
  intros (key & value & ->)%IH. eauto.
Qed.

End strings.

(** ** The override layer *)

Section overrides.
Implicit Types (vars : varset) (e : entry) (es : list entry).

Lemma apply_override_ok vars item : ∃ vars', apply_override vars item = Ok vars'.
Proof.
  unfold apply_override. destruct (Str.contains "=" item) eqn:Heq; [|eauto].
  destruct (split1_two _ _ Heq) as (key & value & ->). eauto.
Qed.

Lemma apply_override_items_ok vars items :
  ∃ vars', apply_override_items vars items = Ok vars'.
Proof.
  revert vars. induction items as [|item items IH]; intros vars; simpl; [eauto|].
  destruct (apply_override_ok vars item) as [vars' ->]. simpl. apply IH.
Qed.

Lemma apply_overrides_ok vars extravars :
  ∃ vars', apply_overrides vars extravars = Ok vars'.
Proof.
  destruct extravars; simpl; [eauto|]. apply apply_override_items_ok.
Qed.

Lemma render_entry_no_semicolon e :
  entry_ok e = true → Str.contains ";" (render_entry e) = false.
Proof.
  destruct e as [key value|text]; simpl.
  - intros [[_ Hk%negb_true_iff]%andb_true_iff Hv%negb_true_iff]%andb_true_iff.
    rewrite !contains_app, Hk, Hv. reflexivity.
  - by intros [_ Ht%negb_true_iff]%andb_true_iff.
Qed.

Lemma apply_override_render vars e :
  entry_ok e = true →
  apply_override vars (render_entry e) = Ok (apply_entry vars e).
Proof.
  unfold apply_override. destruct e as [key value|text]; simpl.
  - intros [[Hk%negb_true_iff _]%andb_true_iff _]%andb_true_iff.
    change (key +:+ "=" +:+ value) with (key +:+ String "=" value).
    rewrite contains_app, contains_sep_cons, orb_true_r.
    by rewrite split1_app_sep.
  - intros [Ht%negb_true_iff _]%andb_true_iff. by rewrite Ht.
Qed.

Lemma apply_override_items_render vars es :
  Forall (λ e, entry_ok e = true) es →
  apply_override_items vars (render_entry <$> es) = Ok (foldl apply_entry vars es).
Proof.
  intros Hall. revert vars.
  induction Hall as [|e es He Hes IH]; intros vars; simpl; [done|].
  rewrite apply_override_render by done. simpl. apply IH.
Qed.

End overrides.

Lemma apply_overrides_split (vars : varset) (extravars : string) :
  apply_overrides vars extravars
  = apply_override_items vars (Str.split ";" extravars).
Proof. by destruct extravars. Qed.

(** C4. Applying the override layer never raises, whatever the string; on
    a string made of entries joined by [;] it does, entry after entry, what
    the document says: [key=value], cut at the first [=], sets the trimmed
    key to the trimmed value over any earlier value, and an entry without
    [=] leaves the set as it is. The base [region=A] with the string
    ["region=B;extra=1"] gives [region=B] and [extra=1]. *)
Theorem overrides_layer (vars : varset) :
  (∀ extravars, ∃ vars', apply_overrides vars extravars = Ok vars') ∧
  (∀ es, Forall (λ e, entry_ok e = true) es →
     apply_overrides vars (render_entries es) = Ok (foldl apply_entry vars es)) ∧
  (∀ key value, Str.contains "=" key = false →
     Str.contains ";" (key +:+ "=" +:+ value) = false →
     ∃ vars', apply_overrides vars (key +:+ "=" +:+ value) = Ok vars' ∧
              vars' !! Str.strip key = Some (Scalar (SStr (Str.strip value))) ∧
              ∀ k, k ≠ Str.strip key → vars' !! k = vars !! k) ∧
  (∀ text, Str.contains "=" text = false →
     apply_overrides vars text = Ok vars) ∧
  apply_overrides region_base "region=B;extra=1"
  = Ok {[ "region" := Scalar (SStr "B"); "extra" := Scalar (SStr "1") ]}.
Proof.
  split; [|split; [|split; [|split]]].
  - intros extravars. apply apply_overrides_ok.
  - intros es Hall. rewrite apply_overrides_split. unfold render_entries.
    destruct (decide (es = [])) as [->|Hne]; [done|].
    rewrite split_join.
    + by apply apply_override_items_render.
    + by destruct es.
    + apply Forall_fmap. eapply Forall_impl; [exact Hall|].
      intros e He. by apply render_entry_no_semicolon.
  - intros key value Hkey Hsemi.
    exists (<[Str.strip key := Scalar (SStr (Str.strip value))]> vars).
    split; [|split].
    + rewrite apply_overrides_split, split_no_sep by done. simpl.
      unfold apply_override.
      change (key +:+ "=" +:+ value) with (key +:+ String "=" value).
      rewrite contains_app, contains_sep_cons, orb_true_r.
      by rewrite split1_app_sep.
    + apply lookup_insert_eq.
    + intros k Hk. by apply lookup_insert_ne.
  - intros text Htext. rewrite apply_overrides_split.
    assert (∀ items vars0, Forall (λ item, Str.contains "=" item = false) items →
              apply_override_items vars0 items = Ok vars0) as Hskip.
    { induction 1 as [|item items Hitem _ IH]; simpl; [done|].
      unfold apply_override. rewrite Hitem. simpl. apply IH. }
    apply Hskip. clear Hskip.
    induction text as [|c text IH]; simpl; [by repeat constructor|].
    simpl in Htext. apply orb_false_iff in Htext as [Hc Htext].
    specialize (IH Htext). destruct (bool_decide (c = ";"%char)).
    + by constructor.
    + destruct (Str.split ";" text) as [|piece pieces]; simpl.
      * repeat constructor. simpl. by rewrite Hc.
      * apply Forall_cons in IH as [Hp Hps]. constructor; [|done].
        simpl. by rewrite Hc, Hp.
  - apply (f_equal Ok). apply map_eq. intros k. vm_compute.
    reflexivity.
Qed.

Lemma overrides_layer_witness :
  apply_overrides region_base (render_entries spaced_entries)
  = Ok (foldl apply_entry region_base spaced_entries) ∧
  render_entries spaced_entries = " region = B ;junk;extra=a=b"%string ∧
  foldl apply_entry region_base spaced_entries
  = {[ "region" := Scalar (SStr "B"); "extra" := Scalar (SStr "a=b") ]}.
Proof.
  split; [|split].
  - apply (overrides_layer region_base). repeat constructor.
  - reflexivity.
  - vm_compute. reflexivity.
Defined.

(** ** The variable set *)

Lemma result_ok_inv {A} (r : result A) : is_ok r = true → ∃ a, r = Ok a.
Proof. destruct r as [a|e]; [eauto|done]. Qed.

Lemma bind_ok {A B} (r : result A) (k : A → result B) (b : B) :
  r ≫= k = Ok b → ∃ a, r = Ok a ∧ k a = Ok b.
Proof. destruct r as [a|e]; [|done]. eauto. Qed.

Local Tactic Notation "bind_inv" hyp(H) "as" ident(x) ident(Hx) :=
  apply bind_ok in H as (x & Hx & H); cbv beta in H.

Lemma getkey_ok {V} (d : gmap string V) (k : string) (v : V) :
  getkey d k = Ok v ↔ d !! k = Some v.
Proof. unfold getkey. destruct (d !! k); naive_solver. Qed.

Lemma slice4_ok (v w : value) : slice4 v = Ok w → ∃ s, v = Scalar (SStr s).
Proof. destruct v as [[| | |s]|]; try done. eauto. Qed.

Lemma set_if_absent_other key compute (vars vars' : varset) k :
  set_if_absent key compute vars = Ok vars' → k ≠ key → vars' !! k = vars !! k.
Proof.
  unfold set_if_absent. intros H Hk. destruct (vars !! key).
  - by injection H as <-.
  - bind_inv H as d Hd. injection H as <-. by rewrite lookup_insert_ne.
Qed.

Section init_vars.
Context (ps : process) (fs : filesystem) (config_path : path) (extravars : string).

(** What a successful run of the mds [init_vars] returns: the six
    environment assignments over a set whose [is_trading_day] is
    [curr_date in trd_year], [curr_date] being a string. *)
Lemma mds_init_vars_ok (g : Mds.globals) (vars : varset) :
  Mds.init_vars g ps fs config_path extravars = Ok vars →
  ∃ (vars0 : varset) (curr_date : string) (trd_year : list Z),
    vars = Mds.set_environment g ps
             (<["is_trading_day" :=
                  Scalar (SBool (value_in (Scalar (SStr curr_date)) trd_year))]> vars0).
Proof.
  intros H. unfold Mds.init_vars in H.
  destruct (fragments fs !! _) as [colony|]; [|done].
  cbv zeta in H.
  bind_inv H as mon_node_id Hid. bind_inv H as mon_host Hmon.
  bind_inv H as vars1 Hover. bind_inv H as colony_num Hnum.
  bind_inv H as trd_path Hpath.
  destruct (calendars fs !! trd_path) as [trd_dates|]; [|done].
  bind_inv H as vars2 Hcurr. bind_inv H as curr_date Hdate.
  bind_inv H as curr_date_int Hint. bind_inv H as curr_year Hyear.
  bind_inv H as vars3 Hnext. bind_inv H as vars4 Hpre.
  bind_inv H as curr_date' Hdate'. cbv zeta in H. injection H as <-.
  bind_inv Hyear as prefix Hslice.
  destruct (slice4_ok _ _ Hslice) as [s ->].
  apply getkey_ok in Hdate, Hdate'.
  rewrite (set_if_absent_other _ _ _ _ _ Hpre) in Hdate' by done.
  rewrite (set_if_absent_other _ _ _ _ _ Hnext) in Hdate' by done.
  rewrite Hdate in Hdate'. injection Hdate' as <-. eauto.
Qed.

Lemma oes_init_vars_ok (g : Oes.globals) (vars : varset) :
  Oes.init_vars g ps fs config_path extravars = Ok vars →
  ∃ vars0 : varset, vars = Oes.set_environment g ps vars0.
Proof.
  intros H. unfold Oes.init_vars in H.
  destruct (fragments fs !! _) as [colony|]; [|done].
  cbv zeta in H.
  bind_inv H as mon_node_id Hid. bind_inv H as mon_host Hmon.
  bind_inv H as vars1 Hover.
  destruct (calendars fs !! _) as [trd_dates|]; [|done].
  bind_inv H as vars2 Hcurr. bind_inv H as curr_date Hdate.
  bind_inv H as curr_date_int Hint. bind_inv H as curr_year Hyear.
  bind_inv H as vars3 Hnext. bind_inv H as vars4 Hpre.
  injection H as <-. eauto.
Qed.

End init_vars.

(** The mds [init_vars] tests the string [vars["curr_date"]] against a list
    of ints, so whenever it returns, [is_trading_day] is [False]. *)
Lemma mds_is_trading_day_false (g : Mds.globals) (ps : process) (fs : filesystem)
    (config_path : path) (extravars : string) (vars : varset) :
  Mds.init_vars g ps fs config_path extravars = Ok vars →
  vars !! "is_trading_day" = Some (Scalar (SBool false)).
Proof.
  intros (vars0 & curr_date & trd_year & ->)%mds_init_vars_ok.
  unfold Mds.set_environment. by simplify_map_eq.
Qed.

(** C3, at an input where the code departs from it. With the override
    [curr_date=20240103], a date that is in the 2024 list of the calendar,
    the mds [init_vars] returns a set whose [is_trading_day] is [False];
    an [is_trading_day] supplied by an override is replaced by that same
    [False]. *)
Theorem is_trading_day_on_a_trading_day :
  calendar_2024 !! trd_key 2024 = Some [20240102; 20240103; 20240108; 20241231] ∧
  20240103 ∈ [20240102; 20240103; 20240108; 20241231] ∧
  field (Mds.init_vars mds_globals sample_process sample_fs mds_root
           "curr_date=20240103") "curr_date"
  = Some (Scalar (SStr "20240103")) ∧
  field (Mds.init_vars mds_globals sample_process sample_fs mds_root
           "curr_date=20240103") "is_trading_day"
  = Some (Scalar (SBool false)) ∧
  field (Mds.init_vars mds_globals sample_process sample_fs mds_root
           "curr_date=20240103;is_trading_day=True") "is_trading_day"
  = Some (Scalar (SBool false)).
Proof.
  split; [reflexivity|]. split; [by apply (bool_decide_unpack _)|].
  repeat split; vm_compute; reflexivity.
Qed.

(** C6. When the cluster-wide fragment names a monitoring node whose
    [mon.yaml] is missing, or whose [mon.yaml] names a host whose per-host
    fragment is missing, the mds [init_vars] raises [FileNotFoundError] for
    that path: it returns no variable set. *)
Theorem missing_mon_fragment (g : Mds.globals) (ps : process) (fs : filesystem)
    (config_path : path) (extravars : string) (colony : record) (mon_id : scalar) :
  fragments fs !! joinpath config_path ["all"; "colony.yaml"] = Some colony →
  colony !! "mon_node_id" = Some mon_id →
  (fragments fs !! mon_file (Mds.MON_DIR g) mon_id = None →
     Mds.init_vars g ps fs config_path extravars
     = Raise (MissingConfigFile (mon_file (Mds.MON_DIR g) mon_id))) ∧
  (∀ mon_vars host_id,
     fragments fs !! mon_file (Mds.MON_DIR g) mon_id = Some mon_vars →
     mon_vars !! "host_id" = Some host_id →
     fragments fs !! host_file (Mds.HOST_CONF_DIR g) host_id = None →
     Mds.init_vars g ps fs config_path extravars
     = Raise (MissingConfigFile (host_file (Mds.HOST_CONF_DIR g) host_id))).
Proof.
  intros Hcolony Hid. unfold Mds.init_vars. rewrite Hcolony.
  cbv zeta. rewrite (proj2 (getkey_ok _ _ _) Hid). simpl.
  unfold load_mon_conf. fold (mon_file (Mds.MON_DIR g) mon_id). split.
  - intros ->. reflexivity.
  - intros mon_vars host_id -> Hhost Hnone.
    rewrite (proj2 (getkey_ok _ _ _) Hhost). simpl. rewrite Hnone. reflexivity.
Qed.

Lemma missing_mon_fragment_witness :
  Mds.init_vars mds_globals sample_process fs_without_mon mds_root ""
  = Raise (MissingConfigFile ["/opt/artweb"; "storage"; "mon"; "config"; "1"; "mon.yaml"]) ∧
  Mds.init_vars mds_globals sample_process fs_without_mon_host mds_root ""
  = Raise (MissingConfigFile ["/opt/artweb"; "storage"; "host_vars"; "host_7.yaml"]).
Proof.
  destruct (missing_mon_fragment mds_globals sample_process fs_without_mon mds_root ""
              sample_colony (SInt 1) eq_refl eq_refl) as [Hmon _].
  destruct (missing_mon_fragment mds_globals sample_process fs_without_mon_host
              mds_root "" sample_colony (SInt 1) eq_refl eq_refl) as [_ Hhost].
  split.
  - apply Hmon. reflexivity.
  - apply (Hhost {[ "host_id" := SInt 7; "mon_port" := SInt 9000 ]} (SInt 7));
      reflexivity.
Defined.

(** C8, as amended. Whatever the files and the override string hold, a set
    returned by the mds [init_vars] has the record id, the log path, the
    script, playbook and data directories and the interpreter path of the
    environment; a set returned by the oes [init_vars] has the script,
    playbook and data directories and the interpreter path of the
    environment. *)
Theorem environment_fields (ps : process) (fs : filesystem) (config_path : path)
    (extravars : string) :
  (∀ g vars, Mds.init_vars g ps fs config_path extravars = Ok vars →
     vars !! "JOBS_RECORD_ID" = Some (Scalar (Mds.JOBS_RECORD_ID g)) ∧
     vars !! "JOBS_LOG_PATH" = Some (Scalar (SStr (Mds.JOBS_LOG_PATH g))) ∧
     vars !! "local_path_script_home"
       = Some (Scalar (SStr (path_str (Mds.SCRIPT_DIR g)))) ∧
     vars !! "local_path_playbook_home"
       = Some (Scalar (SStr (path_str (Mds.PLAYBOOK_DIR g)))) ∧
     vars !! "local_path_mds_home"
       = Some (Scalar (SStr (path_str (Mds.MDS_DIR g)))) ∧
     vars !! "local_python_interpreter"
       = Some (Scalar (SStr (sys_executable ps)))) ∧
  (∀ g vars, Oes.init_vars g ps fs config_path extravars = Ok vars →
     vars !! "local_path_script_home"
       = Some (Scalar (SStr (path_str (Oes.SCRIPT_DIR g)))) ∧
     vars !! "local_path_playbook_home"
       = Some (Scalar (SStr (path_str (Oes.PLAYBOOK_DIR g)))) ∧
     vars !! "local_path_oes_home"
       = Some (Scalar (SStr (path_str (Oes.OES_DIR g)))) ∧
     vars !! "local_python_interpreter"
       = Some (Scalar (SStr (sys_executable ps)))).
Proof.
  split.
  - intros g vars (vars0 & curr_date & trd_year & ->)%mds_init_vars_ok.
    unfold Mds.set_environment. by simplify_map_eq.
  - intros g vars (vars0 & ->)%oes_init_vars_ok.
    unfold Oes.set_environment. by simplify_map_eq.
Qed.

(** The overrides of the sample runs try to replace every environment
    field. *)
Lemma environment_fields_witness :
  let spoof := ("JOBS_RECORD_ID=0;JOBS_LOG_PATH=/tmp/x;local_path_script_home=/tmp;"
                +:+ "local_python_interpreter=/bin/false")%string in
  field (Mds.init_vars mds_globals sample_process sample_fs mds_root spoof)
    "JOBS_LOG_PATH" = Some (Scalar (SStr "/var/log/job.log")) ∧
  field (Mds.init_vars mds_globals sample_process sample_fs mds_root spoof)
    "JOBS_RECORD_ID" = Some (Scalar (SStr "42")) ∧
  field (Oes.init_vars oes_globals sample_process sample_fs oes_root spoof)
    "local_python_interpreter" = Some (Scalar (SStr "/usr/bin/python3")).
Proof.
  intros spoof.
  destruct (result_ok_inv
              (Mds.init_vars mds_globals sample_process sample_fs mds_root spoof))
    as [mds_vars Hmds]; [vm_compute; reflexivity|].
  destruct (result_ok_inv
              (Oes.init_vars oes_globals sample_process sample_fs oes_root spoof))
    as [oes_vars Hoes]; [vm_compute; reflexivity|].
  destruct (environment_fields sample_process sample_fs mds_root spoof) as [Hm _].
  destruct (environment_fields sample_process sample_fs oes_root spoof) as [_ Ho].
  destruct (Hm mds_globals mds_vars Hmds) as (Hid & Hlog & _).
  destruct (Ho oes_globals oes_vars Hoes) as (_ & _ & _ & Hpy).
  rewrite Hmds, Hoes. unfold field.
  split; [exact Hlog|]. split; [exact Hid|exact Hpy].
Defined.

(** C8 as first stated fails on the oes script: its [init_vars] assigns
    neither a log path nor a record id. Without overrides the returned set
    has no such key and holds the log path of the environment nowhere; with
    overrides under the names the mds script uses, the overriding values
    stay. *)
Lemma oes_environment_fields_overridable :
  is_ok (Oes.init_vars oes_globals sample_process sample_fs oes_root "") = true ∧
  field (Oes.init_vars oes_globals sample_process sample_fs oes_root "")
    "JOBS_LOG_PATH" = None ∧
  field (Oes.init_vars oes_globals sample_process sample_fs oes_root "")
    "JOBS_RECORD_ID" = None ∧
  holds_nowhere (Scalar (SStr (Oes.ANSIBLE_LOG_PATH oes_globals)))
    (Oes.init_vars oes_globals sample_process sample_fs oes_root "") = true ∧
  field (Oes.init_vars oes_globals sample_process sample_fs oes_root
           "JOBS_LOG_PATH=/tmp/x;JOBS_RECORD_ID=0") "JOBS_LOG_PATH"
  = Some (Scalar (SStr "/tmp/x")) ∧
  field (Oes.init_vars oes_globals sample_process sample_fs oes_root
           "JOBS_LOG_PATH=/tmp/x;JOBS_RECORD_ID=0") "JOBS_RECORD_ID"
  = Some (Scalar (SStr "0")).
Proof. repeat split; vm_compute; reflexivity. Qed.

(** C9. Once the cluster-wide fragment, the monitoring record and the
    overrides are in place, [init_vars] raises [FileNotFoundError] when the
    trading-calendar file is missing, whatever the variable set holds by
    then: also when [curr_date], [next_trd_date] and [pre_trd_date] all
    come from the override string. The mds script looks for the file of
    the set's [colony_num], the oes script for one file under the base
    directory. *)
Theorem missing_calendar_file (ps : process) (fs : filesystem) (config_path : path)
    (extravars : string) (colony mon_host : record) (mon_id : scalar) :
  fragments fs !! joinpath config_path ["all"; "colony.yaml"] = Some colony →
  colony !! "mon_node_id" = Some mon_id →
  (∀ g vars colony_num,
     load_mon_conf (Mds.MON_DIR g) (Mds.HOST_CONF_DIR g) fs mon_id = Ok mon_host →
     apply_overrides (<["mon_host" := Dict mon_host]> (Scalar <$> colony)) extravars
     = Ok vars →
     vars !! "colony_num" = Some (Scalar (SStr colony_num)) →
     calendars fs !! joinpath (Mds.MDS_DIR g) ["mon"; colony_num; "TrdDateList.yaml"]
     = None →
     Mds.init_vars g ps fs config_path extravars
     = Raise (MissingConfigFile
                (joinpath (Mds.MDS_DIR g) ["mon"; colony_num; "TrdDateList.yaml"]))) ∧
  (∀ g,
     load_mon_conf (Oes.MON_DIR g) (Oes.HOST_CONF_DIR g) fs mon_id = Ok mon_host →
     calendars fs !! Oes.trd_data_path g = None →
     Oes.init_vars g ps fs config_path extravars
     = Raise (MissingConfigFile (Oes.trd_data_path g))).
Proof.
  intros Hcolony Hid. split.
  - intros g vars colony_num Hmon Hover Hnum Hnone.
    unfold Mds.init_vars. rewrite Hcolony. cbv zeta.
    unfold mbind, result_bind.
    rewrite (proj2 (getkey_ok _ _ _) Hid), Hmon, Hover.
    rewrite (proj2 (getkey_ok _ _ _) Hnum).
    unfold Mds.trd_data_path. cbv beta iota. by rewrite Hnone.
  - intros g Hmon Hnone.
    unfold Oes.init_vars. rewrite Hcolony. cbv zeta.
    unfold mbind, result_bind.
    rewrite (proj2 (getkey_ok _ _ _) Hid), Hmon.
    destruct (apply_overrides_ok (<["mon_host" := Dict mon_host]> (Scalar <$> colony))
                extravars) as [vars ->].
    by rewrite Hnone.
Qed.

Lemma missing_calendar_file_witness :
  let supplied :=
    "curr_date=20240104;next_trd_date=20240108;pre_trd_date=20240103"%string in
  Mds.init_vars mds_globals sample_process fs_without_calendar mds_root supplied
  = Raise (MissingConfigFile
             ["/opt/artweb"; "storage"; "mds"; "mon"; "01"; "TrdDateList.yaml"]) ∧
  Oes.init_vars oes_globals sample_process fs_without_calendar oes_root supplied
  = Raise (MissingConfigFile ["/opt/artweb"; "config"; "TrdDateList.yaml"]).
Proof.
  intros supplied.
  pose (mon_host := merge_dicts {[ "host_id" := SInt 7; "mon_port" := SInt 9000 ]}
                      {[ "ansible_host" := SStr "10.0.0.7" ]}).
  destruct (missing_calendar_file sample_process fs_without_calendar mds_root supplied
              sample_colony mon_host (SInt 1) eq_refl eq_refl) as [Hmds _].
  destruct (missing_calendar_file sample_process fs_without_calendar oes_root supplied
              sample_colony mon_host (SInt 1) eq_refl eq_refl) as [_ Hoes].
  split.
  - destruct (apply_overrides_ok (<["mon_host" := Dict mon_host]> (Scalar <$> sample_colony))
                supplied) as [vars Hvars].
    apply (Hmds mds_globals vars "01"%string); [reflexivity|exact Hvars| |reflexivity].
    assert (field (apply_overrides (<["mon_host" := Dict mon_host]> (Scalar <$> sample_colony))
                     supplied) "colony_num" = Some (Scalar (SStr "01"))) as Hnum
      by (vm_compute; reflexivity).
    by rewrite Hvars in Hnum.
  - apply (Hoes oes_globals); reflexivity.
Defined.

(** ** The host map *)

Section init_hosts.
Context (g : Mds.globals) (fs : filesystem) (colony_num : string) (conf_path : path).
Implicit Types (entries : list (string * bool)) (hosts acc : gmap string record).
Implicit Types (loaded : list (string * record)).

Lemma merge_dicts_lookup (a b : record) key :
  merge_dicts a b !! key
  = match b !! key with Some v => Some v | None => a !! key end.
Proof.
  unfold merge_dicts. destruct (b !! key) as [v|] eqn:Hb.
  - by apply lookup_union_Some_l.
  - by rewrite lookup_union_r.
Qed.

(** [load_node] does what the document says of a node directory. *)
Lemma load_node_entry dir host_name host :
  Mds.load_node g fs colony_num dir = Ok (host_name, host) ↔
  node_entry g fs colony_num dir host_name host.
Proof.
  unfold Mds.load_node, node_entry. split.
  - intros H. destruct (fragments fs !! joinpath dir _) as [node_data|]; [|done].
    bind_inv H as host_id Hid. apply getkey_ok in Hid.
    destruct (fragments fs !! host_file _ _) as [host_data|] eqn:Hhost; [|done].
    bind_inv H as node_role Hrole. apply getkey_ok in Hrole.
    injection H as <- <-.
    exists node_data, host_data, host_id, node_role.
    repeat split; try done.
    + intros key v Hv. by rewrite merge_dicts_lookup, Hv.
    + intros key Hv. by rewrite merge_dicts_lookup, Hv.
  - intros (node_data & host_data & host_id & node_role
            & -> & Hid & Hhost & Hrole & -> & Hwins & Hrest).
    rewrite (proj2 (getkey_ok _ _ _) Hid). simpl. rewrite Hhost.
    rewrite (proj2 (getkey_ok _ _ _) Hrole). simpl.
    f_equal. f_equal. apply map_eq. intros key.
    rewrite merge_dicts_lookup.
    destruct (host_data !! key) as [v|] eqn:Hv; [by rewrite (Hwins _ _ Hv)|].
    by rewrite Hrest.
Qed.

(** The loop loads the recognized entries in order and inserts each. *)
Lemma init_hosts_loop_ok entries acc hosts :
  Mds.init_hosts_loop g fs colony_num conf_path entries acc = Ok hosts ↔
  ∃ loaded,
    Forall2 (λ e kv, Mds.load_node g fs colony_num (joinpath conf_path [e.1]) = Ok kv)
      (filter recognized entries) loaded ∧
    hosts = foldl insert_host acc loaded.
Proof.
  revert acc. induction entries as [|[name is_dir] entries IH]; intros acc; simpl.
  { split.
    - intros [= <-]. exists []. split; [constructor|done].
    - intros (loaded & ->%Forall2_nil_inv_l & ->). done. }
  destruct (decide (recognized (name, is_dir))) as [Hrec|Hrec].
  - rewrite filter_cons_True by done.
    destruct Hrec as [Hdir Hname]. simpl in Hdir, Hname |- *. subst is_dir.
    rewrite bool_decide_eq_true_2 by done. simpl.
    split.
    + intros H. bind_inv H as kv Hkv. destruct kv as [host_name host].
      apply IH in H as (loaded & Hall & ->).
      exists ((host_name, host) :: loaded). split; [by constructor|done].
    + intros (loaded & Hall & ->).
      apply Forall2_cons_inv_l in Hall as ([host_name host] & loaded' & Hkv & Hall & ->).
      simpl in Hkv. rewrite Hkv. simpl. apply IH. eauto.
  - rewrite filter_cons_False by done.
    assert (is_dir && bool_decide (name ∈ node_dirs) = false) as ->; [|apply IH].
    apply not_true_is_false. intros [-> Hname%bool_decide_eq_true]%andb_true_iff.
    by apply Hrec.
Qed.



Lemma foldl_insert_host_is_Some loaded acc host_name :
  host_name ∈ loaded.*1 ∨ is_Some (acc !! host_name) →
  is_Some (foldl insert_host acc loaded !! host_name).
Proof.
  revert acc. induction loaded as [|[k v] loaded IH]; intros acc; simpl.
  { intros [Hin|Hacc]; [by apply elem_of_nil in Hin|done]. }
  intros H. apply IH. unfold insert_host. simpl.
  destruct (decide (k = host_name)) as [->|Hne].
  - right. rewrite lookup_insert_eq. eauto.
  - rewrite lookup_insert_ne by done.
    destruct H as [[?|?]%elem_of_cons|?]; [done|by left|by right].
Qed.

Lemma foldl_insert_host_other loaded acc host_name :
  host_name ∉ loaded.*1 →
  foldl insert_host acc loaded !! host_name = acc !! host_name.
Proof.
  revert acc. induction loaded as [|[k v] loaded IH]; intros acc; simpl; [done|].
  intros [Hne Hnot]%not_elem_of_cons. rewrite IH by done.
  unfold insert_host. simpl. by rewrite lookup_insert_ne.
Qed.

(** The last record loaded under a name is the one that stays. *)
Lemma foldl_insert_host_last loaded loaded' acc host_name host :
  host_name ∉ loaded'.*1 →
  foldl insert_host acc (loaded ++ (host_name, host) :: loaded') !! host_name
  = Some host.
Proof.
  intros Hnot. rewrite foldl_app. simpl.
  rewrite foldl_insert_host_other by done.
  unfold insert_host. simpl. by rewrite lookup_insert_eq.
Qed.

Lemma foldl_insert_host_size loaded acc :
  (size (foldl insert_host acc loaded) ≤ size acc + length loaded)%nat.
Proof.
  revert acc. induction loaded as [|[k v] loaded IH]; intros acc; simpl; [lia|].
  etrans; [apply IH|]. unfold insert_host. simpl.
  destruct (acc !! k) eqn:Hk.
  - rewrite map_size_insert_Some by eauto. lia.
  - rewrite map_size_insert_None by done. lia.
Qed.

(** A name loaded twice makes the map smaller than the list. *)
Lemma foldl_insert_host_size_dup loaded acc :
  ¬ NoDup loaded.*1 →
  (size (foldl insert_host acc loaded) < size acc + length loaded)%nat.
Proof.
  revert acc. induction loaded as [|[k v] loaded IH]; intros acc; simpl.
  { intros []. constructor. }
  intros Hdup. destruct (decide (NoDup loaded.*1)) as [Hnd|Hnd].
  - assert (k ∈ loaded.*1) as Hk.
    { destruct (decide (k ∈ loaded.*1)); [done|]. destruct Hdup. by constructor. }
    apply list_elem_of_fmap in Hk as ([k' v'] & -> & Hin).
    apply list_elem_of_split in Hin as (l1 & l2 & ->). simpl.
    rewrite foldl_app. simpl.
    change (insert_host acc (k', v)) with (<[k' := v]> acc).
    change (insert_host (foldl insert_host (<[k' := v]> acc) l1) (k', v'))
      with (<[k' := v']> (foldl insert_host (<[k' := v]> acc) l1)).
    pose proof (foldl_insert_host_size l1 (<[k' := v]> acc)) as H1.
    pose proof (foldl_insert_host_size l2
                  (<[k' := v']> (foldl insert_host (<[k' := v]> acc) l1))) as H2.
    assert (is_Some (foldl insert_host (<[k' := v]> acc) l1 !! k')) as Hsome.
    { apply foldl_insert_host_is_Some. right. rewrite lookup_insert_eq. eauto. }
    rewrite map_size_insert_Some in H2 by done.
    assert (size (<[k' := v]> acc) ≤ S (size acc))%nat.
    { destruct (acc !! k') eqn:Hacc.
      - rewrite map_size_insert_Some by eauto. lia.
      - rewrite map_size_insert_None by done. lia. }
    rewrite length_app. simpl. lia.
  - specialize (IH (insert_host acc (k, v)) Hnd).
    assert (size (insert_host acc (k, v)) ≤ S (size acc))%nat; [|lia].
    unfold insert_host. simpl. destruct (acc !! k) eqn:Hacc.
    + rewrite map_size_insert_Some by eauto. lia.
    + rewrite map_size_insert_None by done. lia.
Qed.

(** With distinct names, at most three entries are recognized. *)
Lemma recognized_at_most_three entries :
  NoDup entries.*1 → (length (filter recognized entries) ≤ 3)%nat.
Proof.
  intros Hnd. rewrite <- (length_fmap fst).
  change 3%nat with (length node_dirs). apply submseteq_length.
  apply NoDup_submseteq.
  - eapply sublist_NoDup; [exact Hnd|]. apply fmap_sublist, sublist_filter.
  - intros name ([name' is_dir] & -> & [[_ Hname] _]%list_elem_of_filter)%list_elem_of_fmap.
    exact Hname.
Qed.

(** A recognized directory that declares [node_role] loads under the
    name made from that role. *)
Lemma load_node_host_name name node_data node_role kv :
  fragments fs !! joinpath (joinpath conf_path [name]) ["node.yaml"] = Some node_data →
  node_data !! "node_role" = Some node_role →
  Mds.load_node g fs colony_num (joinpath conf_path [name]) = Ok kv →
  kv.1 = Mds.host_name colony_num node_role.
Proof.
  intros Hnode Hrole Hkv. destruct kv as [host_name host].
  apply load_node_entry in Hkv
    as (node_data' & host_data & host_id & node_role' & Hnode' & _ & _ & Hrole' & -> & _).
  simpl. unfold Mds.host_name. congruence.
Qed.

End init_hosts.



(** C10. When the names in the listing are distinct, the map [init_hosts]
    returns has at most three entries. When two recognized directories
    declare the same [node_role], the call still returns, the map has fewer
    entries than there are recognized directories, and, unless a directory
    iterated later takes the same name, the entry under that name is the
    merge of the later of the two. *)
Theorem init_hosts_collision (g : Mds.globals) (fs : filesystem) (colony_num : string)
    (conf_path : path) (entries : list (string * bool)) (hosts : gmap string record) :
  listing fs !! conf_path = Some entries →
  NoDup entries.*1 →
  Mds.init_hosts g fs colony_num conf_path = Ok hosts →
  (size hosts ≤ 3)%nat ∧
  ∀ before between after name_i name_j node_i node_j node_role,
    entries = before ++ (name_i, true) :: between ++ (name_j, true) :: after →
    name_i ∈ node_dirs → name_j ∈ node_dirs →
    fragments fs !! joinpath (joinpath conf_path [name_i]) ["node.yaml"] = Some node_i →
    fragments fs !! joinpath (joinpath conf_path [name_j]) ["node.yaml"] = Some node_j →
    node_i !! "node_role" = Some node_role →
    node_j !! "node_role" = Some node_role →
    (size hosts < length (filter recognized entries))%nat ∧
    ((∀ name_k node_k role_k,
        (name_k, true) ∈ after → name_k ∈ node_dirs →
        fragments fs !! joinpath (joinpath conf_path [name_k]) ["node.yaml"] = Some node_k →
        node_k !! "node_role" = Some role_k →
        Mds.host_name colony_num role_k ≠ Mds.host_name colony_num node_role) →
     ∃ host_j,
       node_entry g fs colony_num (joinpath conf_path [name_j])
         (Mds.host_name colony_num node_role) host_j ∧
       hosts !! Mds.host_name colony_num node_role = Some host_j).
Proof.
  intros Hlist Hnd. unfold Mds.init_hosts. rewrite Hlist.
  intros (loaded & Hall & ->)%init_hosts_loop_ok.
  pose proof (foldl_insert_host_size loaded ∅) as Hsize.
  rewrite map_size_empty in Hsize. simpl in Hsize.
  pose proof (Forall2_length _ _ _ Hall) as Hlen.
  split.
  { pose proof (recognized_at_most_three entries Hnd). lia. }
  intros before between after name_i name_j node_i node_j node_role
    -> Hi Hj Hnode_i Hnode_j Hrole_i Hrole_j.
  rewrite filter_app, filter_cons_True, filter_app, filter_cons_True in Hall, Hlen |- *
    by done.
  apply Forall2_app_inv_l in Hall as (loaded1 & rest & Hall1 & Hall & ->).
  apply Forall2_cons_inv_l in Hall as (kv_i & rest' & Hkv_i & Hall & ->).
  apply Forall2_app_inv_l in Hall as (loaded2 & rest & Hall2 & Hall & ->).
  apply Forall2_cons_inv_l in Hall as (kv_j & loaded3 & Hkv_j & Hall3 & ->).
  simpl in Hkv_i, Hkv_j.
  pose proof (load_node_host_name _ _ _ _ _ _ _ _ Hnode_i Hrole_i Hkv_i) as Hname_i.
  pose proof (load_node_host_name _ _ _ _ _ _ _ _ Hnode_j Hrole_j Hkv_j) as Hname_j.
  destruct kv_i as [k_i host_i], kv_j as [k_j host_j]. simpl in Hname_i, Hname_j.
  subst k_i k_j. split.
  - rewrite Hlen.
    pose proof (foldl_insert_host_size_dup
                  (loaded1 ++ (Mds.host_name colony_num node_role, host_i)
                   :: loaded2 ++ (Mds.host_name colony_num node_role, host_j) :: loaded3)
                  ∅) as Hdup.
    rewrite map_size_empty in Hdup. simpl in Hdup. apply Hdup.
    rewrite fmap_app, fmap_cons, NoDup_app. simpl.
    intros (_ & _ & [Hnot _]%NoDup_cons). apply Hnot.
    rewrite fmap_app, fmap_cons. simpl.
    apply elem_of_app. right. by left.
  - intros Hlater. exists host_j. split; [by apply load_node_entry|].
    replace (loaded1 ++ (Mds.host_name colony_num node_role, host_i)
             :: loaded2 ++ (Mds.host_name colony_num node_role, host_j) :: loaded3)
      with ((loaded1 ++ (Mds.host_name colony_num node_role, host_i) :: loaded2)
            ++ (Mds.host_name colony_num node_role, host_j) :: loaded3)
      by (by rewrite <- app_assoc).
    apply foldl_insert_host_last.
    intros ([k host_k] & Hk & Hin)%list_elem_of_fmap. simpl in Hk. subst k.
    apply list_elem_of_lookup in Hin as [n Hn].
    destruct (Forall2_lookup_r _ _ _ _ _ Hall3 Hn) as ([name_k is_dir] & He & Hload).
    apply list_elem_of_lookup_2, list_elem_of_filter in He as [[Hdir Hname] He].
    simpl in Hdir, Hname, Hload. subst is_dir.
    pose proof Hload as Hentry.
    apply load_node_entry in Hentry
      as (node_k & _ & _ & role_k & Hnode_k & _ & _ & Hrole_k & Heq & _).
    by apply (Hlater name_k node_k role_k).
Qed.

Lemma init_hosts_collision_witness :
  ∃ hosts, Mds.init_hosts mds_globals fs_same_role "01" mds_root = Ok hosts ∧
    (size hosts ≤ 3)%nat ∧
    (size hosts < 2)%nat ∧
    ∃ host_j,
      node_entry mds_globals fs_same_role "01" (joinpath mds_root ["host_02"%string])
        "mds_01_master" host_j ∧
      hosts !! "mds_01_master"%string = Some host_j.
Proof.
  destruct (result_ok_inv (Mds.init_hosts mds_globals fs_same_role "01" mds_root))
    as [hosts H]; [vm_compute; reflexivity|].
  exists hosts. split; [exact H|].
  destruct (init_hosts_collision mds_globals fs_same_role "01" mds_root
              [("host_01", true); ("host_02", true)]%string hosts)
    as [Hthree Hpair].
  - reflexivity.
  - apply (bool_decide_unpack _). by vm_compute.
  - exact H.
  - split; [exact Hthree|].
    destruct (Hpair [] [] [] "host_01"%string "host_02"%string
                {[ "host_id" := SInt 11; "node_role" := SStr "master";
                   "network_zone" := SStr "role" ]}
                {[ "host_id" := SInt 12; "node_role" := SStr "master" ]}
                (SStr "master")) as [Hfewer Hlast].
    + reflexivity.
    + by apply (bool_decide_unpack _).
    + by apply (bool_decide_unpack _).
    + reflexivity.
    + reflexivity.
    + reflexivity.
    + reflexivity.
    + split; [exact Hfewer|].
      apply Hlast. intros name_k node_k role_k Hin.
      apply elem_of_nil in Hin. destruct Hin.
Defined.

(** * Further properties *)

(** ** The trading calendar, inside a year *)

(** Closes a goal by arithmetic once two reads of one list position are
    identified. *)
Local Ltac same_slot :=
  match goal with
  | H1 : ?l !! ?i = Some ?x, H2 : ?l !! ?i = Some ?y |- _ =>
    assert (x = y) by congruence; lia
  end.

Section calendar_in_year.
Context (trd_dates : calendar) (the_year : Z) (l : list Z).
Context (Hl : trd_dates !! trd_key the_year = Some l).
Context (Hasc : strictly_ascending l = true).
Implicit Types (date : Z) (i : nat).

Lemma ascending_last_max final x :
  last l = Some final → x ∈ l → x ≤ final.
Proof using Hasc.
  rewrite last_lookup. intros Hfinal [i Hi]%list_elem_of_lookup.
  pose proof (lookup_lt_Some _ _ _ Hi).
  destruct (decide (i = pred (length l))) as [->|Hne]; [same_slot|].
  pose proof (ascending_lookup l i (pred (length l)) x final Hasc Hi Hfinal). lia.
Qed.

Lemma ascending_head_min first x :
  head l = Some first → x ∈ l → first ≤ x.
Proof using Hasc.
  rewrite head_lookup. intros Hfirst [i Hi]%list_elem_of_lookup.
  destruct i as [|i]; [same_slot|].
  pose proof (ascending_lookup l 0 (S i) first x Hasc Hfirst Hi). lia.
Qed.

(** Nothing lies strictly between two neighbours. *)
Lemma ascending_between i a b x :
  l !! i = Some a → l !! S i = Some b → a < x < b → x ∉ l.
Proof using Hasc.
  intros Ha Hb Hx [k Hk]%list_elem_of_lookup.
  destruct (decide (k ≤ i)%nat).
  - destruct (decide (k = i)) as [->|]; [same_slot|].
    pose proof (ascending_lookup l k i x a Hasc Hk Ha). lia.
  - destruct (decide (k = S i)) as [->|]; [same_slot|].
    pose proof (ascending_lookup l (S i) k b x Hasc Hb Hk). lia.
Qed.

Lemma ascending_index i x : l !! i = Some x → Py.index x l = Some i.
Proof using Hasc.
  intros Hi. destruct (index_elem_of x l) as [j Hj]; [by eapply list_elem_of_lookup_2|].
  pose proof (index_lookup _ _ _ Hj) as Hj'.
  by rewrite Hj, (ascending_lookup_inj _ _ _ _ Hasc Hj' Hi).
Qed.

(** From a trading day, one call reads the right neighbour. *)
Lemma next_within_member i date n frames :
  l !! i = Some date → l !! S i = Some n → date ≠ 0 →
  ((1 ≤ frames)%nat →
   next_trd_date_within frames trd_dates date the_year = Ok (pretty n)) ∧
  ((frames < 1)%nat →
   next_trd_date_within frames trd_dates date the_year = Raise RecursionError).
Proof using Hl Hasc.
  intros Hi Hn Hnz. unfold next_trd_date_within.
  destruct (last l) as [final|] eqn:Hlast;
    [|apply last_None in Hlast; by subst l].
  assert (n ≤ final) by (eapply ascending_last_max; [done|by eapply list_elem_of_lookup_2]).
  pose proof (ascending_lookup l i (S i) date n Hasc Hi Hn).
  split; intros Hframes.
  - destruct frames as [|frames]; [lia|].
    by rewrite (next_trd_date_rec_member trd_dates the_year date l final i n frames
                  Hl Hlast Hnz ltac:(lia) (ascending_index _ _ Hi) Hn).
  - by replace frames with 0%nat by lia.
Qed.

(** From a trading day, one call reads the left neighbour. *)
Lemma pre_within_member i date n frames :
  l !! i = Some n → l !! S i = Some date → date ≠ 0 →
  ((1 ≤ frames)%nat →
   pre_trd_date_within frames trd_dates date the_year = Ok (pretty n)) ∧
  ((frames < 1)%nat →
   pre_trd_date_within frames trd_dates date the_year = Raise RecursionError).
Proof using Hl Hasc.
  intros Hn Hi Hnz. unfold pre_trd_date_within.
  destruct (head l) as [first|] eqn:Hhead;
    [|apply head_None in Hhead; by subst l].
  assert (first ≤ n) by (eapply ascending_head_min; [done|by eapply list_elem_of_lookup_2]).
  pose proof (ascending_lookup l i (S i) n date Hasc Hn Hi).
  split; intros Hframes.
  - destruct frames as [|frames]; [lia|].
    rewrite pre_trd_date_rec_unfold, Hl. simpl. rewrite Hhead.
    rewrite bool_decide_eq_false_2 by done.
    rewrite bool_decide_eq_false_2 by lia.
    rewrite (proj2 (contains_true _ _)) by (by eapply list_elem_of_lookup_2).
    rewrite (ascending_index _ _ Hi).
    replace (Z.of_nat (S i) - 1) with (Z.of_nat i) by lia.
    by rewrite getitem_nat, Hn.
  - by replace frames with 0%nat by lia.
Qed.

(** From a day that is not a trading day, one call per day stepped. *)
Lemma next_within_gap final date n frames :
  last l = Some final → date < final → date ∉ l →
  (0 < date ∨ n ≤ 0) → least_above l date n →
  ((Z.to_nat (n - date) ≤ frames)%nat →
   next_trd_date_within frames trd_dates date the_year = Ok (pretty n)) ∧
  ((frames < Z.to_nat (n - date))%nat →
   next_trd_date_within frames trd_dates date the_year = Raise RecursionError).
Proof using Hl.
  intros Hlast Hlt Hnot Hpos Hleast.
  assert (default [] (trd_dates !! trd_key the_year) = l) as Hdef by (by rewrite Hl).
  rewrite <- Hdef in Hlast, Hnot, Hleast. unfold next_trd_date_within.
  split; intros Hframes.
  - by rewrite (next_trd_date_rec_exact trd_dates the_year final frames date n).
  - by rewrite (next_trd_date_rec_short trd_dates the_year final frames date n).
Qed.

Lemma pre_within_gap first date n frames :
  head l = Some first → first < date → date ∉ l →
  (date < 0 ∨ 0 ≤ n) → greatest_below l date n →
  ((Z.to_nat (date - n) ≤ frames)%nat →
   pre_trd_date_within frames trd_dates date the_year = Ok (pretty n)) ∧
  ((frames < Z.to_nat (date - n))%nat →
   pre_trd_date_within frames trd_dates date the_year = Raise RecursionError).
Proof using Hl.
  intros Hhead Hlt Hnot Hpos Hgreatest.
  assert (default [] (trd_dates !! trd_key the_year) = l) as Hdef by (by rewrite Hl).
  unfold greatest_below in Hgreatest.
  rewrite <- Hdef in Hhead, Hnot, Hgreatest. unfold pre_trd_date_within.
  split; intros Hframes.
  - by rewrite (pre_trd_date_rec_exact trd_dates the_year first frames date n).
  - by rewrite (pre_trd_date_rec_short trd_dates the_year first frames date n).
Qed.

(** A date outside the list, above its first element, has a greatest
    element below it. *)
Lemma greatest_below_exists first date :
  head l = Some first → first < date → date ∉ l →
  (date < 0 ∨ ∃ e, e ∈ l ∧ 0 ≤ e < date) →
  ∃ n, greatest_below l date n ∧ (date < 0 ∨ 0 ≤ n).
Proof using Hl.
  intros Hhead Hlt Hnot Hpos.
  assert (default [] (trd_dates !! trd_key the_year) = l) as Hdef by (by rewrite Hl).
  rewrite <- Hdef in Hhead, Hnot, Hpos.
  destruct (pre_trd_date_rec_walk trd_dates the_year first
              (Z.to_nat (date - first)) date) as (n & Hgreatest & _); [done..|].
  rewrite Hdef in Hgreatest, Hpos. exists n. split; [done|].
  destruct Hpos as [|(e & He & Hle)]; [by left|right].
  destruct Hgreatest as (_ & _ & Hmax). specialize (Hmax e He ltac:(lia)). lia.
Qed.

Lemma ascending_left_neighbour i n date :
  l !! i = Some n → l !! S i = Some date → greatest_below l date n.
Proof using Hasc.
  intros Hn Hd. split; [by eapply list_elem_of_lookup_2|]. split.
  - apply (ascending_lookup l i (S i)); auto with lia.
  - intros m [k Hk]%list_elem_of_lookup Hm.
    destruct (decide (k ≤ i)%nat).
    + destruct (decide (k = i)) as [->|]; [same_slot|].
      pose proof (ascending_lookup l k i m n Hasc Hk Hn). lia.
    + destruct (decide (k = S i)) as [->|]; [same_slot|].
      pose proof (ascending_lookup l (S i) k date m Hasc Hd Hk). lia.
Qed.

End calendar_in_year.

(** X1. For a calendar whose list for [the_year] is strictly ascending and
    a nonzero [date] strictly above the first element of that list that is
    in the list, or is negative, or has an element of the list below it
    that is at least 0 (so for every list of dates that are not negative),
    the greatest element [n] of the list strictly less than [date] exists,
    is the element at [index(date) - 1] when [date] is in the list, and
    [pre_trd_date] returns it as a decimal string whenever the stack has
    room for the nested calls the stepping makes: one call when [date] is
    in the list, else [date - n] calls, one per day stepped. With less
    room the call raises [RecursionError]. *)
Theorem pre_trd_date_greatest_below (trd_dates : calendar) (the_year date : Z)
    (l : list Z) (first : Z) (frames : nat) :
  trd_dates !! trd_key the_year = Some l →
  strictly_ascending l = true →
  head l = Some first →
  date ≠ 0 →
  first < date →
  (date ∈ l ∨ date < 0 ∨ ∃ e, e ∈ l ∧ 0 ≤ e < date) →
  ∃ n, greatest_below l date n ∧
       (∀ i, l !! S i = Some date → l !! i = Some n) ∧
       ((calls_needed l date n ≤ frames)%nat →
        pre_trd_date_within frames trd_dates date the_year = Ok (pretty n)) ∧
       ((frames < calls_needed l date n)%nat →
        pre_trd_date_within frames trd_dates date the_year = Raise RecursionError).
Proof.
  intros Hl Hasc Hhead Hnz Hlt Hcase. unfold calls_needed.
  destruct (decide (date ∈ l)) as [Hin|Hnot].
  - rewrite bool_decide_eq_true_2 by done.
    apply list_elem_of_lookup in Hin as [[|i] Hi].
    { rewrite head_lookup in Hhead. assert (first = date) by congruence. lia. }
    assert (is_Some (l !! i)) as [n Hn].
    { apply lookup_lt_is_Some. pose proof (lookup_lt_Some _ _ _ Hi). lia. }
    exists n. split; [by eapply ascending_left_neighbour|]. split.
    + intros j Hj. by pose proof (ascending_lookup_inj _ _ _ _ Hasc Hi Hj) as [= <-].
    + exact (pre_within_member trd_dates the_year l Hl Hasc i date n frames Hn Hi Hnz).
  - rewrite bool_decide_eq_false_2 by done.
    destruct (greatest_below_exists trd_dates the_year l Hl first date)
      as (n & Hgreatest & Hsign); [done..|tauto|].
    assert (Z.abs (n - date) = date - n) as Habs
      by (destruct Hgreatest as (_ & ? & _); lia).
    exists n. rewrite Habs. split; [done|]. split.
    + intros i Hi. destruct Hnot. by eapply list_elem_of_lookup_2.
    + exact (pre_within_gap trd_dates the_year l Hl first date n frames
               Hhead Hlt Hnot Hsign Hgreatest).
Qed.

Lemma pre_trd_date_greatest_below_witness :
  ∃ n : Z,
    greatest_below dates_2024 20240107 n ∧
    (∀ i, dates_2024 !! S i = Some 20240107 → dates_2024 !! i = Some n) ∧
    ((calls_needed dates_2024 20240107 n ≤ cpython_recursion_limit)%nat →
     pre_trd_date_within cpython_recursion_limit calendar_2024 20240107 2024
     = Ok (pretty n)) ∧
    ((cpython_recursion_limit < calls_needed dates_2024 20240107 n)%nat →
     pre_trd_date_within cpython_recursion_limit calendar_2024 20240107 2024
     = Raise RecursionError).
Proof.
  apply (pre_trd_date_greatest_below calendar_2024 2024 20240107 dates_2024 20240102
           cpython_recursion_limit).
  - reflexivity.
  - reflexivity.
  - reflexivity.
  - lia.
  - lia.
  - right; right. exists 20240102. split; [by apply (bool_decide_unpack _)|lia].
Defined.

(** X2. Between two neighbours [a] and [b] of a strictly ascending year
    list of positive dates the two functions are constant wherever the
    stack has room for the stepping: every date from [a] up to, not
    including, [b] has [b] as its next trading day, and every date above
    [a] up to and including [b] has [a] as its previous one, one call being
    needed from a trading day and one per day stepped otherwise; with less
    room the call raises [RecursionError]. So stepping to the next trading
    day and back from a trading day returns to it, in one call each. *)
Theorem trd_date_between_neighbours (trd_dates : calendar) (the_year : Z)
    (l : list Z) (i : nat) (a b date : Z) (frames : nat) :
  trd_dates !! trd_key the_year = Some l →
  strictly_ascending l = true →
  l !! i = Some a → l !! S i = Some b → 0 < a →
  (a ≤ date < b →
   ((calls_needed l date b ≤ frames)%nat →
    next_trd_date_within frames trd_dates date the_year = Ok (pretty b)) ∧
   ((frames < calls_needed l date b)%nat →
    next_trd_date_within frames trd_dates date the_year = Raise RecursionError)) ∧
  (a < date ≤ b →
   ((calls_needed l date a ≤ frames)%nat →
    pre_trd_date_within frames trd_dates date the_year = Ok (pretty a)) ∧
   ((frames < calls_needed l date a)%nat →
    pre_trd_date_within frames trd_dates date the_year = Raise RecursionError)).
Proof.
  intros Hl Hasc Ha Hb Hpos. unfold calls_needed.
  pose proof (ascending_lookup l i (S i) a b Hasc Ha Hb) as Hab.
  pose proof (list_elem_of_lookup_2 _ _ _ Ha) as Hain.
  pose proof (list_elem_of_lookup_2 _ _ _ Hb) as Hbin.
  split.
  - intros Hd. destruct (decide (date = a)) as [->|Hne].
    { rewrite bool_decide_eq_true_2 by done.
      apply (next_within_member trd_dates the_year l Hl Hasc i a b frames Ha Hb). lia. }
    assert (date ∉ l) as Hnot
      by (apply (ascending_between l Hasc i a b date Ha Hb); lia).
    rewrite bool_decide_eq_false_2 by done.
    replace (Z.abs (b - date)) with (b - date) by lia.
    destruct (last l) as [final|] eqn:Hlast;
      [|apply last_None in Hlast; by subst l].
    pose proof (ascending_last_max l Hasc final b Hlast Hbin).
    apply (next_within_gap trd_dates the_year l Hl final date b frames);
      [done|lia|done|left; lia|].
    destruct (ascending_neighbour l i a b Hasc Ha Hb) as (_ & _ & Hmin).
    split; [done|]. split; [lia|]. intros m Hm Hdm. apply Hmin; [done|lia].
  - intros Hd. destruct (decide (date = b)) as [->|Hne].
    { rewrite bool_decide_eq_true_2 by done.
      apply (pre_within_member trd_dates the_year l Hl Hasc i b a frames Ha Hb). lia. }
    assert (date ∉ l) as Hnot
      by (apply (ascending_between l Hasc i a b date Ha Hb); lia).
    rewrite bool_decide_eq_false_2 by done.
    replace (Z.abs (a - date)) with (date - a) by lia.
    destruct (head l) as [first|] eqn:Hhead;
      [|apply head_None in Hhead; by subst l].
    pose proof (ascending_head_min l Hasc first a Hhead Hain).
    apply (pre_within_gap trd_dates the_year l Hl first date a frames);
      [done|lia|done|right; lia|].
    destruct (ascending_left_neighbour l Hasc i a b Ha Hb) as (_ & _ & Hmax).
    split; [done|]. split; [lia|]. intros m Hm Hdm.
    destruct (decide (m ≤ a)) as [|Hgt]; [done|].
    assert (m ∉ l); [|done].
    apply (ascending_between l Hasc i a b m Ha Hb). lia.
Qed.

Lemma trd_date_between_neighbours_witness :
  next_trd_date_within cpython_recursion_limit calendar_2024 20240105 2024
  = Ok (pretty 20240108) ∧
  pre_trd_date_within cpython_recursion_limit calendar_2024 20240105 2024
  = Ok (pretty 20240103).
Proof.
  destruct (trd_date_between_neighbours calendar_2024 2024 dates_2024 1
              20240103 20240108 20240105 cpython_recursion_limit)
    as [Hnext Hpre]; [reflexivity..|lia|].
  destruct Hnext as [Hnext _]; [lia|]. destruct Hpre as [Hpre _]; [lia|].
  split; [apply Hnext|apply Hpre]; vm_compute; lia.
Defined.

(** ** The trading calendar, guards and reach *)

(** X3. The empty date 0 is refused before the calendar is read: both
    functions raise the empty-date assertion whatever the table holds. For
    any other date, a table with no list, or an empty list, for the queried
    year makes both raise the missing-year assertion for that year, also
    when the adjacent years are there. *)
Theorem trd_date_guards (trd_dates : calendar) (the_year : Z) :
  next_trd_date trd_dates 0 the_year = Raise InvalidDateError ∧
  pre_trd_date trd_dates 0 the_year = Raise InvalidDateError ∧
  ∀ date, date ≠ 0 →
    trd_dates !! trd_key the_year = None ∨ trd_dates !! trd_key the_year = Some [] →
    next_trd_date trd_dates date the_year = Raise (CalendarGapError the_year) ∧
    pre_trd_date trd_dates date the_year = Raise (CalendarGapError the_year).
Proof.
  split; [by apply (next_trd_date_eq _ _ 1)|].
  split; [by apply (pre_trd_date_eq _ _ 1)|].
  intros date Hnz Hyear.
  assert (default [] (trd_dates !! trd_key the_year) = []) as Hdef
    by (by destruct Hyear as [-> | ->]).
  split.
  - apply (next_trd_date_eq _ _ 1). rewrite next_trd_date_rec_unfold, Hdef. simpl.
    by rewrite bool_decide_eq_false_2.
  - apply (pre_trd_date_eq _ _ 1). rewrite pre_trd_date_rec_unfold, Hdef. simpl.
    by rewrite bool_decide_eq_false_2.
Qed.

Lemma trd_date_guards_witness :
  next_trd_date calendar_2024 20230601 2023 = Raise (CalendarGapError 2023) ∧
  pre_trd_date calendar_2024 20230601 2023 = Raise (CalendarGapError 2023).
Proof.
  destruct (trd_date_guards calendar_2024 2023) as (_ & _ & Hgap).
  apply Hgap; [lia|]. left. reflexivity.
Defined.

Lemma next_trd_date_rec_reach (trd_dates : calendar) (the_year : Z) depth date s :
  next_trd_date_rec depth trd_dates date the_year = Some (Ok s) →
  ∃ n, s = pretty n ∧
    (n ∈ default [] (trd_dates !! trd_key the_year) ∨
     ∃ rest, trd_dates !! trd_key (the_year + 1) = Some (n :: rest)).
Proof.
  revert date. induction depth as [|depth IH]; intros date; [done|].
  rewrite next_trd_date_rec_unfold.
  case_bool_decide; [done|].
  destruct (last _) as [final|]; [|done].
  case_bool_decide.
  { destruct (trd_dates !! trd_key (the_year + 1)) as [[|first rest]|]; try done.
    intros [= <-]. exists first. eauto. }
  destruct (Py.contains date _).
  { destruct (Py.index date _) as [i|]; [|done].
    replace (Z.of_nat i + 1) with (Z.of_nat (S i)) by lia. rewrite getitem_nat.
    destruct (_ !! S i) as [n|] eqn:Hn; [|done].
    intros [= <-]. exists n. split; [done|]. left. by eapply list_elem_of_lookup_2. }
  destruct (Py.contains (date + 1) _) eqn:Hnext; [|apply IH].
  intros [= <-]. exists (date + 1). split; [done|]. left. by apply contains_true.
Qed.

Lemma pre_trd_date_rec_reach (trd_dates : calendar) (the_year : Z) depth date s :
  pre_trd_date_rec depth trd_dates date the_year = Some (Ok s) →
  ∃ n, s = pretty n ∧
    (n ∈ default [] (trd_dates !! trd_key the_year) ∨
     ∃ l', trd_dates !! trd_key (the_year - 1) = Some l' ∧ last l' = Some n).
Proof.
  revert date. induction depth as [|depth IH]; intros date; [done|].
  rewrite pre_trd_date_rec_unfold.
  case_bool_decide; [done|].
  destruct (head _) as [first|]; [|done].
  case_bool_decide.
  { destruct (trd_dates !! trd_key (the_year - 1)) as [l'|]; [|done]. simpl.
    destruct (last l') as [final|] eqn:Hlast; [|done].
    intros [= <-]. exists final. eauto. }
  destruct (Py.contains date _).
  { destruct (Py.index date _) as [i|]; [|done].
    unfold Py.getitem. case_bool_decide.
    - destruct (_ !! Z.to_nat _) as [n|] eqn:Hn; [|done].
      intros [= <-]. exists n. split; [done|]. left. by eapply list_elem_of_lookup_2.
    - case_bool_decide; [|done].
      destruct (_ !! Z.to_nat _) as [n|] eqn:Hn; [|done].
      intros [= <-]. exists n. split; [done|]. left. by eapply list_elem_of_lookup_2. }
  destruct (Py.contains (date - 1) _) eqn:Hnext; [|apply IH].
  intros [= <-]. exists (date - 1). split; [done|]. left. by apply contains_true.
Qed.

(** X4. Whatever the table holds, sorted or not, a string returned by
    [next_trd_date] is the decimal form of a date of the table: an element
    of the queried year's list or the first element of the next year's
    list; one returned by [pre_trd_date] is an element of the queried
    year's list or the last element of the previous year's list. *)
Theorem trd_date_is_a_table_date (trd_dates : calendar) (date the_year : Z)
    (s : string) :
  (next_trd_date trd_dates date the_year = Ok s →
   ∃ n, s = pretty n ∧
     (n ∈ default [] (trd_dates !! trd_key the_year) ∨
      ∃ rest, trd_dates !! trd_key (the_year + 1) = Some (n :: rest))) ∧
  (pre_trd_date trd_dates date the_year = Ok s →
   ∃ n, s = pretty n ∧
     (n ∈ default [] (trd_dates !! trd_key the_year) ∨
      ∃ l', trd_dates !! trd_key (the_year - 1) = Some l' ∧ last l' = Some n)).
Proof.
  split.
  - unfold next_trd_date.
    destruct (next_trd_date_rec _ _ _ _) as [r|] eqn:Hrec; [|done].
    simpl. intros ->. by eapply next_trd_date_rec_reach.
  - unfold pre_trd_date.
    destruct (pre_trd_date_rec _ _ _ _) as [r|] eqn:Hrec; [|done].
    simpl. intros ->. by eapply pre_trd_date_rec_reach.
Qed.

Lemma trd_date_is_a_table_date_witness :
  (∃ n : Z, "20240108"%string = pretty n ∧
     (n ∈ default [] (calendar_2024 !! trd_key 2024) ∨
      ∃ rest, calendar_2024 !! trd_key (2024 + 1) = Some (n :: rest))) ∧
  (∃ n : Z, "20241231"%string = pretty n ∧
     (n ∈ default [] (calendar_2024 !! trd_key 2025) ∨
      ∃ l', calendar_2024 !! trd_key (2025 - 1) = Some l' ∧ last l' = Some n)).
Proof.
  split.
  - apply (trd_date_is_a_table_date calendar_2024 20240104 2024). reflexivity.
  - apply (trd_date_is_a_table_date calendar_2024 20250102 2025). reflexivity.
Defined.

Lemma string_length_app (s t : string) :
  String.length (s +:+ t) = (String.length s + String.length t)%nat.
Proof. induction s as [|c s IH]; [done|]. rewrite app_cons. simpl. by rewrite IH. Qed.

Lemma string_app_inj_r (s1 s2 t : string) : s1 +:+ t = s2 +:+ t → s1 = s2.
Proof.
  revert s2. induction s1 as [|c1 s1 IH]; intros [|c2 s2] Heq; [done|..].
  - apply (f_equal String.length) in Heq.
    rewrite !string_length_app in Heq. simpl in Heq. lia.
  - apply (f_equal String.length) in Heq.
    rewrite !string_length_app in Heq. simpl in Heq. lia.
  - rewrite !app_cons in Heq. injection Heq as -> Heq. f_equal. by apply IH.
Qed.

(** Two years never share a key. *)
Lemma trd_key_inj (y1 y2 : Z) : trd_key y1 = trd_key y2 → y1 = y2.
Proof.
  unfold trd_key. intros Heq.
  apply (inj (String.app "trd_date_")) in Heq.
  apply string_app_inj_r in Heq. by apply (inj pretty).
Qed.

(** The recursion reads the lists of two years only. *)
Lemma next_trd_date_rec_agree (t1 t2 : calendar) (the_year : Z) depth date :
  t1 !! trd_key the_year = t2 !! trd_key the_year →
  t1 !! trd_key (the_year + 1) = t2 !! trd_key (the_year + 1) →
  next_trd_date_rec depth t1 date the_year = next_trd_date_rec depth t2 date the_year.
Proof.
  intros Hyear Hnext. revert date.
  induction depth as [|depth IH]; intros date; [done|].
  rewrite !next_trd_date_rec_unfold, Hyear, Hnext.
  repeat case_match; try done; try apply IH.
Qed.

Lemma pre_trd_date_rec_agree (t1 t2 : calendar) (the_year : Z) depth date :
  t1 !! trd_key the_year = t2 !! trd_key the_year →
  t1 !! trd_key (the_year - 1) = t2 !! trd_key (the_year - 1) →
  pre_trd_date_rec depth t1 date the_year = pre_trd_date_rec depth t2 date the_year.
Proof.
  intros Hyear Hpre. revert date.
  induction depth as [|depth IH]; intros date; [done|].
  rewrite !pre_trd_date_rec_unfold, Hyear, Hpre.
  repeat case_match; try done; try apply IH.
Qed.

(** X5. A query reads the list of its own year and of one adjacent year
    and no other: storing any list under the key of a third year changes
    neither the result nor the error of [next_trd_date] (the year is
    neither [the_year] nor [the_year + 1]) or of [pre_trd_date] (neither
    [the_year] nor [the_year - 1]). *)
Theorem trd_date_other_years (trd_dates : calendar) (date the_year other : Z)
    (l : list Z) :
  other ≠ the_year →
  (other ≠ the_year + 1 →
   next_trd_date (<[trd_key other := l]> trd_dates) date the_year
   = next_trd_date trd_dates date the_year) ∧
  (other ≠ the_year - 1 →
   pre_trd_date (<[trd_key other := l]> trd_dates) date the_year
   = pre_trd_date trd_dates date the_year).
Proof.
  intros Hyear.
  assert (∀ y, other ≠ y →
            <[trd_key other := l]> trd_dates !! trd_key y = trd_dates !! trd_key y)
    as Hframe.
  { intros y Hy. apply lookup_insert_ne. intros Heq%trd_key_inj. done. }
  split; intros Hadj.
  - unfold next_trd_date, next_depth. rewrite (Hframe _ Hyear).
    f_equal. apply next_trd_date_rec_agree; by apply Hframe.
  - unfold pre_trd_date, pre_depth. rewrite (Hframe _ Hyear).
    f_equal. apply pre_trd_date_rec_agree; by apply Hframe.
Qed.

Lemma trd_date_other_years_witness :
  next_trd_date (<[trd_key 2026 := [20260105]]> calendar_2024) 20240104 2024
  = next_trd_date calendar_2024 20240104 2024 ∧
  pre_trd_date (<[trd_key 2026 := [20260105]]> calendar_2024) 20240104 2024
  = pre_trd_date calendar_2024 20240104 2024.
Proof.
  destruct (trd_date_other_years calendar_2024 20240104 2024 2026 [20260105])
    as [Hnext Hpre]; [lia|].
  split; [apply Hnext|apply Hpre]; lia.
Defined.

(** ** The override layer as a dict *)

Section override_dict.
Implicit Types (s : string) (vars base ov : varset).

Lemma lstrip_start s : starts_with_space (Str.lstrip s) = false.
Proof.
  induction s as [|c s IH]; [done|]. simpl.
  destruct (Str.isspace c) eqn:Hc; [done|]. simpl. by rewrite Hc.
Qed.

Lemma rstrip_end s : ends_with_space (Str.rstrip s) = false.
Proof.
  induction s as [|c s IH]; [done|]. simpl.
  destruct (Str.rstrip s) as [|c' r] eqn:Hr.
  - destruct (Str.isspace c) eqn:Hc; [done|]. simpl. by rewrite Hc.
  - exact IH.
Qed.

Lemma rstrip_start s :
  starts_with_space s = false → starts_with_space (Str.rstrip s) = false.
Proof.
  destruct s as [|c s]; [done|]. simpl. intros Hc.
  destruct (Str.rstrip s); [|done]. by rewrite Hc.
Qed.

(** [strip] leaves no white space around its result. *)
Lemma strip_trimmed s : trimmed (Str.strip s) = true.
Proof.
  unfold trimmed, Str.strip.
  by rewrite rstrip_start, rstrip_end by apply lstrip_start.
Qed.

Lemma lstrip_id s : starts_with_space s = false → Str.lstrip s = s.
Proof. destruct s as [|c s]; [done|]. simpl. by intros ->. Qed.

Lemma rstrip_id s : ends_with_space s = false → Str.rstrip s = s.
Proof.
  induction s as [|c s IH]; [done|]. simpl.
  destruct s as [|c' s'].
  - simpl. by intros ->.
  - intros Hs. rewrite (IH Hs). done.
Qed.

(** On a string without white space around, [strip] changes nothing. *)
Lemma strip_id s : trimmed s = true → Str.strip s = s.
Proof.
  unfold trimmed, Str.strip.
  intros [Hs%negb_true_iff He%negb_true_iff]%andb_true_iff.
  by rewrite lstrip_id, rstrip_id.
Qed.

Lemma apply_override_union ov ov' base item :
  apply_override ov item = Ok ov' →
  apply_override (ov ∪ base) item = Ok (ov' ∪ base).
Proof.
  unfold apply_override. destruct (Str.contains "=" item).
  - destruct (Str.split1 "=" item) as [|key [|value [|??]]]; try done.
    intros [= <-]. by rewrite insert_union_l.
  - by intros [= <-].
Qed.

Lemma apply_override_items_union ov ov' base items :
  apply_override_items ov items = Ok ov' →
  apply_override_items (ov ∪ base) items = Ok (ov' ∪ base).
Proof.
  revert ov. induction items as [|item items IH]; intros ov; simpl.
  - by intros [= <-].
  - intros H. bind_inv H as ov1 H1.
    rewrite (apply_override_union _ _ _ _ H1). simpl. by apply IH.
Qed.

Lemma apply_overrides_union ov base extravars :
  apply_overrides ∅ extravars = Ok ov →
  apply_overrides base extravars = Ok (ov ∪ base).
Proof.
  rewrite !apply_overrides_split. intros H.
  apply (apply_override_items_union _ _ base) in H.
  by rewrite (left_id_L ∅ (∪)) in H.
Qed.

Lemma apply_override_values vars vars' item :
  apply_override vars item = Ok vars' →
  ∀ k v, vars' !! k = Some v →
    vars !! k = Some v ∨ (trimmed k = true ∧ override_value v).
Proof.
  unfold apply_override. destruct (Str.contains "=" item).
  - destruct (Str.split1 "=" item) as [|key [|value [|??]]]; try done.
    intros [= <-] k v [[<- <-]|[_ Hk]]%lookup_insert_Some; [|by left].
    right. split; [apply strip_trimmed|]. eexists. split; [done|]. apply strip_trimmed.
  - intros [= <-]. auto.
Qed.

Lemma apply_override_items_values vars vars' items :
  apply_override_items vars items = Ok vars' →
  ∀ k v, vars' !! k = Some v →
    vars !! k = Some v ∨ (trimmed k = true ∧ override_value v).
Proof.
  revert vars. induction items as [|item items IH]; intros vars; simpl.
  - intros [= <-]. auto.
  - intros H k v Hk. bind_inv H as vars1 H1.
    destruct (IH _ H k v Hk) as [Hk1|?]; [|by right].
    by eapply apply_override_values.
Qed.

End override_dict.

(** X6. The override loop amounts to one dict made from the string alone:
    applying the string to any set gives that dict laid over the set, key
    by key, the dict winning; applying the same string again changes
    nothing; and every key of the dict is free of surrounding white space
    and every value is a string free of surrounding white space (an
    override never stores a number, a boolean or a record). *)
Theorem overrides_as_dict (base : varset) (extravars : string) :
  ∃ ov : varset,
    apply_overrides ∅ extravars = Ok ov ∧
    apply_overrides base extravars = Ok (ov ∪ base) ∧
    apply_overrides (ov ∪ base) extravars = Ok (ov ∪ base) ∧
    (∀ k v, ov !! k = Some v → trimmed k = true ∧ override_value v).
Proof.
  destruct (apply_overrides_ok ∅ extravars) as [ov Hov].
  exists ov. split; [done|]. split; [by apply apply_overrides_union|]. split.
  - rewrite (apply_overrides_union ov (ov ∪ base)) by done.
    by rewrite (assoc_L (∪)), (idemp_L (∪)).
  - intros k v Hk. rewrite apply_overrides_split in Hov.
    destruct (apply_override_items_values _ _ _ Hov k v Hk) as [Hempty|?]; [|done].
    by rewrite lookup_empty in Hempty.
Qed.

(** ** The monitoring record *)

(** X7. [load_mon_conf] returns only when [mon.yaml] exists, names a
    [host_id], and the host fragment of that id exists; the record it
    returns has every field of both, with the host fragment's value where
    both define a field, so it always holds a [host_id]. When [mon.yaml]
    exists without a [host_id] the call raises [KeyError], whatever host
    fragments exist. *)
Theorem load_mon_conf_merge (MON_DIR HOST_CONF_DIR : path) (fs : filesystem)
    (mon_id : scalar) :
  (∀ r, load_mon_conf MON_DIR HOST_CONF_DIR fs mon_id = Ok r →
     ∃ mon_vars host_id mon_host,
       fragments fs !! mon_file MON_DIR mon_id = Some mon_vars ∧
       mon_vars !! "host_id" = Some host_id ∧
       fragments fs !! host_file HOST_CONF_DIR host_id = Some mon_host ∧
       (∀ key, r !! key = match mon_host !! key with
                          | Some v => Some v
                          | None => mon_vars !! key
                          end) ∧
       is_Some (r !! "host_id")) ∧
  (∀ mon_vars,
     fragments fs !! mon_file MON_DIR mon_id = Some mon_vars →
     mon_vars !! "host_id" = None →
     load_mon_conf MON_DIR HOST_CONF_DIR fs mon_id = Raise (KeyError "host_id")).
Proof.
  unfold load_mon_conf. fold (mon_file MON_DIR mon_id). split.
  - intros r H.
    destruct (fragments fs !! mon_file MON_DIR mon_id) as [mon_vars|]; [|done].
    bind_inv H as host_id Hid. apply getkey_ok in Hid.
    destruct (fragments fs !! host_file _ _) as [mon_host|] eqn:Hhost; [|done].
    injection H as <-. exists mon_vars, host_id, mon_host.
    repeat split; try done.
    + intros key. apply merge_dicts_lookup.
    + rewrite merge_dicts_lookup. destruct (mon_host !! "host_id"); eauto.
  - intros mon_vars -> Hnone. unfold getkey. by rewrite Hnone.
Qed.

Lemma load_mon_conf_merge_witness :
  ∃ mon_vars host_id mon_host,
    fragments sample_fs !! mon_file storage_mon (SInt 1) = Some mon_vars ∧
    mon_vars !! "host_id" = Some host_id ∧
    fragments sample_fs !! host_file storage_host_vars host_id = Some mon_host ∧
    (∀ key, sample_mon_host !! key = match mon_host !! key with
                                     | Some v => Some v
                                     | None => mon_vars !! key
                                     end) ∧
    is_Some (sample_mon_host !! "host_id").
Proof.
  apply (load_mon_conf_merge storage_mon storage_host_vars sample_fs (SInt 1)).
  reflexivity.
Defined.

(** ** The variable set, layer by layer *)

Lemma layers_lookup (colony mon_host : record) (ov : varset) (k : string) :
  (ov ∪ <["mon_host" := Dict mon_host]> (Scalar <$> colony)) !! k
  = layers colony mon_host ov k.
Proof.
  unfold layers. destruct (ov !! k) as [v|] eqn:Hov.
  - by apply lookup_union_Some_l.
  - rewrite lookup_union_r by done. case_decide as Hk.
    + subst k. apply lookup_insert_eq.
    + rewrite lookup_insert_ne by done. apply lookup_fmap.
Qed.

Lemma int_value_str (s : string) (n : Z) :
  int_value (Scalar (SStr s)) = Ok n ↔ Str.to_int s = Some n.
Proof. simpl. destruct (Str.to_int s); naive_solver. Qed.

Lemma set_if_absent_same key compute (vars vars' : varset) :
  set_if_absent key compute vars = Ok vars' →
  match vars !! key with
  | Some v => vars' = vars
  | None => ∃ d, compute = Ok d ∧ vars' = <[key := Scalar (SStr d)]> vars
  end.
Proof.
  unfold set_if_absent. destruct (vars !! key).
  - by intros [= <-].
  - intros H. bind_inv H as d Hd. injection H as <-. eauto.
Qed.

(** The date steps that the two scripts share. *)
Lemma date_steps (today : string) (trd_dates : calendar)
    (vars1 vars2 vars3 vars4 : varset) (curr_date : value) (n y : Z) :
  set_if_absent "curr_date" (Ok today) vars1 = Ok vars2 →
  getkey vars2 "curr_date" = Ok curr_date →
  int_value curr_date = Ok n →
  slice4 curr_date ≫= int_value = Ok y →
  set_if_absent "next_trd_date" (next_trd_date trd_dates n y) vars2 = Ok vars3 →
  set_if_absent "pre_trd_date" (pre_trd_date trd_dates n y) vars3 = Ok vars4 →
  date_fields today trd_dates (λ k, vars1 !! k) vars4 ∧
  (∃ s, curr_date = Scalar (SStr s)) ∧
  ∀ k, k ∉ ["curr_date"; "next_trd_date"; "pre_trd_date"]%string →
       vars4 !! k = vars1 !! k.
Proof.
  intros Hcurr Hdate Hint Hyear Hnext H.
  bind_inv Hyear as prefix Hslice.
  destruct (slice4_ok _ _ Hslice) as [s ->]. simpl in Hslice.
  injection Hslice as <-.
  apply int_value_str in Hint, Hyear. apply getkey_ok in Hdate.
  pose proof (set_if_absent_same _ _ _ _ Hcurr) as Hcurr'.
  pose proof (set_if_absent_same _ _ _ _ Hnext) as Hnext'.
  pose proof (set_if_absent_same _ _ _ _ H) as Hpre'.
  split.
  - exists s, n, y.
    assert (vars4 !! "curr_date" = Some (Scalar (SStr s))) as Hc4.
    { rewrite (set_if_absent_other _ _ _ _ _ H) by done.
      by rewrite (set_if_absent_other _ _ _ _ _ Hnext). }
    split; [done|]. split.
    { destruct (vars1 !! "curr_date") as [v|] eqn:Hv.
      - subst vars2. congruence.
      - destruct Hcurr' as (d & [= <-] & ->).
        rewrite lookup_insert_eq in Hdate. congruence. }
    split; [done|]. split; [done|].
    assert (vars2 !! "next_trd_date" = vars1 !! "next_trd_date") as Hn2
      by (by apply (set_if_absent_other _ _ _ _ _ Hcurr)).
    assert (vars3 !! "pre_trd_date" = vars1 !! "pre_trd_date") as Hp3.
    { rewrite (set_if_absent_other _ _ _ _ _ Hnext) by done.
      by apply (set_if_absent_other _ _ _ _ _ Hcurr). }
    split.
    + rewrite <- Hn2. rewrite (set_if_absent_other _ _ _ _ _ H) by done.
      destruct (vars2 !! "next_trd_date") as [v|] eqn:Hv.
      * by subst vars3.
      * destruct Hnext' as (d & Hd & ->). exists d.
        by rewrite lookup_insert_eq.
    + rewrite <- Hp3. destruct (vars3 !! "pre_trd_date") as [v|] eqn:Hv.
      * by subst vars4.
      * destruct Hpre' as (d & Hd & ->). exists d.
        by rewrite lookup_insert_eq.
  - split; [eauto|]. intros k Hk.
    apply not_elem_of_cons in Hk as [Hk1 Hk].
    apply not_elem_of_cons in Hk as [Hk2 Hk].
    apply not_elem_of_cons in Hk as [Hk3 _].
    rewrite (set_if_absent_other _ _ _ _ _ H) by done.
    rewrite (set_if_absent_other _ _ _ _ _ Hnext) by done.
    by apply (set_if_absent_other _ _ _ _ _ Hcurr).
Qed.

Lemma date_fields_agree today trd_dates given given' (vars vars' : varset) :
  (∀ k, k ∈ ["curr_date"; "next_trd_date"; "pre_trd_date"]%string →
        vars' !! k = vars !! k ∧ given' k = given k) →
  date_fields today trd_dates given vars →
  date_fields today trd_dates given' vars'.
Proof.
  intros Hagree (s & n & y & Hc & Hg & Hn & Hy & Hnext & Hpre).
  destruct (Hagree "curr_date"%string) as [Hv1 Hg1]; [by apply (bool_decide_unpack _)|].
  destruct (Hagree "next_trd_date"%string) as [Hv2 Hg2]; [by apply (bool_decide_unpack _)|].
  destruct (Hagree "pre_trd_date"%string) as [Hv3 Hg3]; [by apply (bool_decide_unpack _)|].
  exists s, n, y. by rewrite Hv1, Hg1, Hv2, Hg2, Hv3, Hg3.
Qed.

Section init_vars_layers.
Context (ps : process) (fs : filesystem) (config_path : path) (extravars : string).

(** Everything a successful run of the mds [init_vars] went through. *)
Lemma mds_init_vars_steps (g : Mds.globals) (vars : varset) :
  Mds.init_vars g ps fs config_path extravars = Ok vars →
  ∃ colony mon_id mon_host ov colony_num trd_dates (vars4 : varset),
    fragments fs !! joinpath config_path ["all"; "colony.yaml"] = Some colony ∧
    colony !! "mon_node_id" = Some mon_id ∧
    load_mon_conf (Mds.MON_DIR g) (Mds.HOST_CONF_DIR g) fs mon_id = Ok mon_host ∧
    apply_overrides ∅ extravars = Ok ov ∧
    layers colony mon_host ov "colony_num" = Some (Scalar (SStr colony_num)) ∧
    calendars fs !! joinpath (Mds.MDS_DIR g) ["mon"; colony_num; "TrdDateList.yaml"]
      = Some trd_dates ∧
    date_fields (get_curr_date ps) trd_dates (layers colony mon_host ov) vars4 ∧
    (∀ k, k ∉ ["curr_date"; "next_trd_date"; "pre_trd_date"]%string →
          vars4 !! k = layers colony mon_host ov k) ∧
    vars = Mds.set_environment g ps
             (<["is_trading_day" := Scalar (SBool false)]> vars4).
Proof.
  intros H. unfold Mds.init_vars in H.
  destruct (fragments fs !! _) as [colony|] eqn:Hcolony; [|done].
  cbv zeta in H.
  bind_inv H as mon_node_id Hid. bind_inv H as mon_host Hmon.
  bind_inv H as vars1 Hover. bind_inv H as colony_num Hnum.
  bind_inv H as trd_path Hpath.
  destruct (calendars fs !! trd_path) as [trd_dates|] eqn:Htrd; [|done].
  bind_inv H as vars2 Hcurr. bind_inv H as curr_date Hdate.
  bind_inv H as curr_date_int Hint. bind_inv H as curr_year Hyear.
  bind_inv H as vars3 Hnext. bind_inv H as vars4 Hpre.
  bind_inv H as curr_date' Hdate'. cbv zeta in H. injection H as <-.
  destruct (apply_overrides_ok ∅ extravars) as [ov Hov].
  rewrite (apply_overrides_union _ _ _ Hov) in Hover. injection Hover as <-.
  apply getkey_ok in Hid, Hnum, Hdate'. rewrite layers_lookup in Hnum.
  destruct colony_num as [[| | |cn]|]; try done. simpl in Hpath.
  injection Hpath as <-.
  destruct (date_steps _ _ _ _ _ _ _ _ _ Hcurr Hdate Hint Hyear Hnext Hpre)
    as (Hfields & [s ->] & Hrest).
  exists colony, mon_node_id, mon_host, ov, cn, trd_dates, vars4.
  repeat split; try done.
  - eapply date_fields_agree; [|exact Hfields].
    intros k _. split; [done|]. by rewrite layers_lookup.
  - intros k Hk. rewrite (Hrest k Hk). apply layers_lookup.
  - apply getkey_ok in Hdate.
    rewrite (set_if_absent_other _ _ _ _ _ Hpre) in Hdate' by done.
    rewrite (set_if_absent_other _ _ _ _ _ Hnext) in Hdate' by done.
    rewrite Hdate in Hdate'. by injection Hdate' as <-.
Qed.

(** Everything a successful run of the oes [init_vars] went through. *)
Lemma oes_init_vars_steps (g : Oes.globals) (vars : varset) :
  Oes.init_vars g ps fs config_path extravars = Ok vars →
  ∃ colony mon_id mon_host ov trd_dates (vars4 : varset),
    fragments fs !! joinpath config_path ["all"; "colony.yaml"] = Some colony ∧
    colony !! "mon_node_id" = Some mon_id ∧
    load_mon_conf (Oes.MON_DIR g) (Oes.HOST_CONF_DIR g) fs mon_id = Ok mon_host ∧
    apply_overrides ∅ extravars = Ok ov ∧
    calendars fs !! Oes.trd_data_path g = Some trd_dates ∧
    date_fields (get_curr_date ps) trd_dates (layers colony mon_host ov) vars4 ∧
    (∀ k, k ∉ ["curr_date"; "next_trd_date"; "pre_trd_date"]%string →
          vars4 !! k = layers colony mon_host ov k) ∧
    vars = Oes.set_environment g ps vars4.
Proof.
  intros H. unfold Oes.init_vars in H.
  destruct (fragments fs !! _) as [colony|] eqn:Hcolony; [|done].
  cbv zeta in H.
  bind_inv H as mon_node_id Hid. bind_inv H as mon_host Hmon.
  bind_inv H as vars1 Hover.
  destruct (calendars fs !! _) as [trd_dates|] eqn:Htrd; [|done].
  bind_inv H as vars2 Hcurr. bind_inv H as curr_date Hdate.
  bind_inv H as curr_date_int Hint. bind_inv H as curr_year Hyear.
  bind_inv H as vars3 Hnext. bind_inv H as vars4 Hpre.
  injection H as <-.
  destruct (apply_overrides_ok ∅ extravars) as [ov Hov].
  rewrite (apply_overrides_union _ _ _ Hov) in Hover. injection Hover as <-.
  apply getkey_ok in Hid.
  destruct (date_steps _ _ _ _ _ _ _ _ _ Hcurr Hdate Hint Hyear Hnext Hpre)
    as (Hfields & _ & Hrest).
  exists colony, mon_node_id, mon_host, ov, trd_dates, vars4.
  repeat split; try done.
  - eapply date_fields_agree; [|exact Hfields].
    intros k _. split; [done|]. by rewrite layers_lookup.
  - intros k Hk. rewrite (Hrest k Hk). apply layers_lookup.
Qed.

End init_vars_layers.

(** X8. In a set returned by [init_vars], every key the function does not
    itself write after the override layer is read from the layers in
    order: the value from the override string if the string sets the key,
    else the embedded monitoring record if the key is [mon_host], else the
    value of the cluster-wide fragment, else nothing. So an override can
    replace the embedded [mon_host] record by a string, and a file value
    the overrides do not name always survives. *)
Theorem init_vars_layered_keys (ps : process) (fs : filesystem) (config_path : path)
    (extravars : string) :
  (∀ g vars, Mds.init_vars g ps fs config_path extravars = Ok vars →
     ∃ colony mon_id mon_host ov,
       fragments fs !! joinpath config_path ["all"; "colony.yaml"] = Some colony ∧
       colony !! "mon_node_id" = Some mon_id ∧
       load_mon_conf (Mds.MON_DIR g) (Mds.HOST_CONF_DIR g) fs mon_id = Ok mon_host ∧
       apply_overrides ∅ extravars = Ok ov ∧
       ∀ k, k ∉ mds_written → vars !! k = layers colony mon_host ov k) ∧
  (∀ g vars, Oes.init_vars g ps fs config_path extravars = Ok vars →
     ∃ colony mon_id mon_host ov,
       fragments fs !! joinpath config_path ["all"; "colony.yaml"] = Some colony ∧
       colony !! "mon_node_id" = Some mon_id ∧
       load_mon_conf (Oes.MON_DIR g) (Oes.HOST_CONF_DIR g) fs mon_id = Ok mon_host ∧
       apply_overrides ∅ extravars = Ok ov ∧
       ∀ k, k ∉ oes_written → vars !! k = layers colony mon_host ov k).
Proof.
  split.
  - intros g vars (colony & mon_id & mon_host & ov & cn & trd & vars4 & Hcolony & Hid
                   & Hmon & Hov & _ & _ & _ & Hrest & ->)%mds_init_vars_steps.
    exists colony, mon_id, mon_host, ov. repeat split; try done.
    intros k Hk. unfold mds_written in Hk.
    repeat (apply not_elem_of_cons in Hk as [? Hk]).
    unfold Mds.set_environment. rewrite !lookup_insert_ne by done.
    apply Hrest. by repeat (apply not_elem_of_cons; split; [done|]); apply not_elem_of_nil.
  - intros g vars (colony & mon_id & mon_host & ov & trd & vars4 & Hcolony & Hid
                   & Hmon & Hov & _ & _ & Hrest & ->)%oes_init_vars_steps.
    exists colony, mon_id, mon_host, ov. repeat split; try done.
    intros k Hk. unfold oes_written in Hk.
    repeat (apply not_elem_of_cons in Hk as [? Hk]).
    unfold Oes.set_environment. rewrite !lookup_insert_ne by done.
    apply Hrest. by repeat (apply not_elem_of_cons; split; [done|]); apply not_elem_of_nil.
Qed.

Lemma init_vars_layered_keys_witness :
  field (Mds.init_vars mds_globals sample_process sample_fs mds_root
           "region=B;mon_host= none ") "region" = Some (Scalar (SStr "B")) ∧
  field (Mds.init_vars mds_globals sample_process sample_fs mds_root
           "region=B;mon_host= none ") "mon_host" = Some (Scalar (SStr "none")) ∧
  field (Oes.init_vars oes_globals sample_process sample_fs oes_root "")
    "mon_host" = Some (Dict sample_mon_host).
Proof.
  destruct (init_vars_layered_keys sample_process sample_fs mds_root
              "region=B;mon_host= none ") as [Hmds _].
  destruct (init_vars_layered_keys sample_process sample_fs oes_root "") as [_ Hoes].
  destruct (result_ok_inv
              (Mds.init_vars mds_globals sample_process sample_fs mds_root
                 "region=B;mon_host= none ")) as [mds_vars Hm];
    [vm_compute; reflexivity|].
  destruct (result_ok_inv
              (Oes.init_vars oes_globals sample_process sample_fs oes_root ""))
    as [oes_vars Ho]; [vm_compute; reflexivity|].
  rewrite Hm, Ho.
  destruct (Hmds mds_globals mds_vars Hm)
    as (colony & mon_id & mon_host & ov & Hc & Hi & Hl & Hov & Hkeys).
  destruct (Hoes oes_globals oes_vars Ho)
    as (colony' & mon_id' & mon_host' & ov' & Hc' & Hi' & Hl' & Hov' & Hkeys').
  assert (colony = sample_colony) as ->.
  { assert (fragments sample_fs !! joinpath mds_root ["all"; "colony.yaml"]%string
            = Some sample_colony) as Heq by reflexivity.
    congruence. }
  assert (colony' = sample_colony) as ->.
  { assert (fragments sample_fs !! joinpath oes_root ["all"; "colony.yaml"]%string
            = Some sample_colony) as Heq by reflexivity.
    congruence. }
  assert (mon_id' = SInt 1) as ->.
  { assert (sample_colony !! "mon_node_id" = Some (SInt 1)) as Heq by reflexivity.
    congruence. }
  assert (mon_host' = sample_mon_host) as ->.
  { assert (load_mon_conf (Oes.MON_DIR oes_globals) (Oes.HOST_CONF_DIR oes_globals)
              sample_fs (SInt 1) = Ok sample_mon_host) as Heq by reflexivity.
    congruence. }
  assert (ov' = ∅) as -> by (simpl in Hov'; congruence).
  assert (ov = {[ "region" := Scalar (SStr "B"); "mon_host" := Scalar (SStr "none") ]})
    as ->.
  { assert (apply_overrides ∅ "region=B;mon_host= none "
            = Ok ({[ "region" := Scalar (SStr "B");
                     "mon_host" := Scalar (SStr "none") ]} : varset)) as Heq
      by (vm_compute; reflexivity).
    congruence. }
  simpl. split; [|split].
  - rewrite Hkeys by (by apply (bool_decide_unpack _)). reflexivity.
  - rewrite Hkeys by (by apply (bool_decide_unpack _)). reflexivity.
  - rewrite Hkeys' by (by apply (bool_decide_unpack _)). reflexivity.
Defined.

(** X9. In a set returned by [init_vars], [curr_date] is the value the
    earlier layers gave, else the local date; it is a string that [int]
    reads, as is its four-character prefix. [next_trd_date] and
    [pre_trd_date] each keep the value an earlier layer gave, untouched
    and unchecked, and are computed from the calendar, for [int(curr_date)]
    and the year [int(curr_date[:4])], only when no layer gave one. The mds
    script reads the calendar of the [colony_num] the layers give, the oes
    script the one calendar under the base directory. *)
Theorem init_vars_date_fields (ps : process) (fs : filesystem) (config_path : path)
    (extravars : string) :
  (∀ g vars, Mds.init_vars g ps fs config_path extravars = Ok vars →
     ∃ colony mon_id mon_host ov colony_num trd_dates,
       fragments fs !! joinpath config_path ["all"; "colony.yaml"] = Some colony ∧
       colony !! "mon_node_id" = Some mon_id ∧
       load_mon_conf (Mds.MON_DIR g) (Mds.HOST_CONF_DIR g) fs mon_id = Ok mon_host ∧
       apply_overrides ∅ extravars = Ok ov ∧
       layers colony mon_host ov "colony_num" = Some (Scalar (SStr colony_num)) ∧
       calendars fs !! joinpath (Mds.MDS_DIR g) ["mon"; colony_num; "TrdDateList.yaml"]
         = Some trd_dates ∧
       date_fields (get_curr_date ps) trd_dates (layers colony mon_host ov) vars) ∧
  (∀ g vars, Oes.init_vars g ps fs config_path extravars = Ok vars →
     ∃ colony mon_id mon_host ov trd_dates,
       fragments fs !! joinpath config_path ["all"; "colony.yaml"] = Some colony ∧
       colony !! "mon_node_id" = Some mon_id ∧
       load_mon_conf (Oes.MON_DIR g) (Oes.HOST_CONF_DIR g) fs mon_id = Ok mon_host ∧
       apply_overrides ∅ extravars = Ok ov ∧
       calendars fs !! Oes.trd_data_path g = Some trd_dates ∧
       date_fields (get_curr_date ps) trd_dates (layers colony mon_host ov) vars).
Proof.
  split.
  - intros g vars (colony & mon_id & mon_host & ov & cn & trd & vars4 & Hcolony & Hid
                   & Hmon & Hov & Hnum & Htrd & Hfields & _ & ->)%mds_init_vars_steps.
    exists colony, mon_id, mon_host, ov, cn, trd. repeat split; try done.
    eapply date_fields_agree; [|exact Hfields].
    intros k Hk. split; [|done]. unfold Mds.set_environment.
    repeat (apply elem_of_cons in Hk as [->|Hk]; [by rewrite !lookup_insert_ne|]).
    by apply elem_of_nil in Hk.
  - intros g vars (colony & mon_id & mon_host & ov & trd & vars4 & Hcolony & Hid
                   & Hmon & Hov & Htrd & Hfields & _ & ->)%oes_init_vars_steps.
    exists colony, mon_id, mon_host, ov, trd. repeat split; try done.
    eapply date_fields_agree; [|exact Hfields].
    intros k Hk. split; [|done]. unfold Oes.set_environment.
    repeat (apply elem_of_cons in Hk as [->|Hk]; [by rewrite !lookup_insert_ne|]).
    by apply elem_of_nil in Hk.
Qed.

Lemma init_vars_date_fields_witness :
  ∃ vars, Oes.init_vars oes_globals sample_process sample_fs oes_root
            "next_trd_date=tomorrow" = Ok vars ∧
    ∃ colony mon_id mon_host ov trd_dates,
      fragments sample_fs !! joinpath oes_root ["all"; "colony.yaml"]%string
        = Some colony ∧
      colony !! "mon_node_id" = Some mon_id ∧
      load_mon_conf (Oes.MON_DIR oes_globals) (Oes.HOST_CONF_DIR oes_globals)
        sample_fs mon_id = Ok mon_host ∧
      apply_overrides ∅ "next_trd_date=tomorrow" = Ok ov ∧
      calendars sample_fs !! Oes.trd_data_path oes_globals = Some trd_dates ∧
      date_fields (get_curr_date sample_process) trd_dates
        (layers colony mon_host ov) vars.
Proof.
  destruct (result_ok_inv
              (Oes.init_vars oes_globals sample_process sample_fs oes_root
                 "next_trd_date=tomorrow")) as [vars H];
    [vm_compute; reflexivity|].
  exists vars. split; [exact H|].
  exact (proj2 (init_vars_date_fields sample_process sample_fs oes_root
                  "next_trd_date=tomorrow") oes_globals vars H).
Defined.

(** ** The variable set, step by step *)

Section init_vars_forward.
Context (ps : process) (fs : filesystem) (config_path : path) (extravars : string).
Context (colony mon_host : record) (ov : varset) (mon_id : scalar).
Context (Hcolony : fragments fs !! joinpath config_path ["all"; "colony.yaml"]
                   = Some colony).
Context (Hid : colony !! "mon_node_id" = Some mon_id).
Context (Hov : apply_overrides ∅ extravars = Ok ov).

(** The set the first three layers give. *)
Let vars1 : varset := ov ∪ <["mon_host" := Dict mon_host]> (Scalar <$> colony).

Lemma mds_init_vars_reach (g : Mds.globals) :
  load_mon_conf (Mds.MON_DIR g) (Mds.HOST_CONF_DIR g) fs mon_id = Ok mon_host →
  Mds.init_vars g ps fs config_path extravars
  = (colony_num ← getkey vars1 "colony_num";
     trd_path ← Mds.trd_data_path g colony_num;
     match calendars fs !! trd_path with
     | None => Raise (FileNotFoundError trd_path)
     | Some trd_dates => mds_after_calendar g ps trd_dates vars1
     end).
Proof using Hcolony Hid Hov.
  intros Hmon. unfold Mds.init_vars. rewrite Hcolony. cbv zeta.
  rewrite (proj2 (getkey_ok _ _ _) Hid).
  change (Ok mon_id ≫= ?k) with (k mon_id). cbv beta. rewrite Hmon.
  change (Ok mon_host ≫= ?k) with (k mon_host). cbv beta.
  rewrite (apply_overrides_union _ _ _ Hov). reflexivity.
Qed.

Lemma oes_init_vars_reach (g : Oes.globals) :
  load_mon_conf (Oes.MON_DIR g) (Oes.HOST_CONF_DIR g) fs mon_id = Ok mon_host →
  Oes.init_vars g ps fs config_path extravars
  = match calendars fs !! Oes.trd_data_path g with
    | None => Raise (FileNotFoundError (Oes.trd_data_path g))
    | Some trd_dates => oes_after_calendar g ps trd_dates vars1
    end.
Proof using Hcolony Hid Hov.
  intros Hmon. unfold Oes.init_vars. rewrite Hcolony. cbv zeta.
  rewrite (proj2 (getkey_ok _ _ _) Hid).
  change (Ok mon_id ≫= ?k) with (k mon_id). cbv beta. rewrite Hmon.
  change (Ok mon_host ≫= ?k) with (k mon_host). cbv beta.
  rewrite (apply_overrides_union _ _ _ Hov). reflexivity.
Qed.

Lemma vars1_lookup k : vars1 !! k = layers colony mon_host ov k.
Proof. apply layers_lookup. Qed.

End init_vars_forward.

Lemma set_if_absent_present key compute (vars : varset) (v : value) :
  vars !! key = Some v → set_if_absent key compute vars = Ok vars.
Proof. unfold set_if_absent. by intros ->. Qed.

Section after_calendar.
Context (ps : process) (vars1 : varset).

(** A [curr_date] that is not a string stops both scripts: an int passes
    [int] and fails at the slice. *)
Lemma after_calendar_int_date (n : Z) :
  vars1 !! "curr_date" = Some (Scalar (SInt n)) →
  (∀ g trd_dates, mds_after_calendar g ps trd_dates vars1 = Raise TypeError) ∧
  (∀ g trd_dates, oes_after_calendar g ps trd_dates vars1 = Raise TypeError).
Proof.
  intros Hdate.
  split; intros g trd_dates; unfold mds_after_calendar, oes_after_calendar;
    rewrite (set_if_absent_present _ _ _ _ Hdate);
    change (Ok vars1 ≫= ?k) with (k vars1); cbv beta;
    by rewrite (proj2 (getkey_ok _ _ _) Hdate).
Qed.

Lemma after_calendar_bad_date (s : string) :
  vars1 !! "curr_date" = Some (Scalar (SStr s)) →
  Str.to_int s = None →
  (∀ g trd_dates, mds_after_calendar g ps trd_dates vars1 = Raise ValueError) ∧
  (∀ g trd_dates, oes_after_calendar g ps trd_dates vars1 = Raise ValueError).
Proof.
  intros Hdate Hint.
  split; intros g trd_dates; unfold mds_after_calendar, oes_after_calendar;
    rewrite (set_if_absent_present _ _ _ _ Hdate);
    change (Ok vars1 ≫= ?k) with (k vars1); cbv beta;
    rewrite (proj2 (getkey_ok _ _ _) Hdate);
    change (Ok ?a ≫= ?k) with (k a); cbv beta;
    simpl; by rewrite Hint.
Qed.

(** With both dates given, what follows the loading of the calendar does
    not depend on what the calendar holds. *)
Lemma after_calendar_given (next pre : value) (t1 t2 : calendar) :
  vars1 !! "next_trd_date" = Some next →
  vars1 !! "pre_trd_date" = Some pre →
  (∀ g, mds_after_calendar g ps t1 vars1 = mds_after_calendar g ps t2 vars1) ∧
  (∀ g, oes_after_calendar g ps t1 vars1 = oes_after_calendar g ps t2 vars1).
Proof.
  intros Hnext Hpre.
  assert (∀ vars2, set_if_absent "curr_date" (Ok (get_curr_date ps)) vars1 = Ok vars2 →
            vars2 !! "next_trd_date" = Some next ∧ vars2 !! "pre_trd_date" = Some pre)
    as Hkeep.
  { intros vars2 H. by rewrite !(set_if_absent_other _ _ _ _ _ H). }
  split; intros g; unfold mds_after_calendar, oes_after_calendar.
  - destruct (set_if_absent "curr_date" _ vars1) as [vars2|] eqn:Hcurr; [|done].
    destruct (Hkeep vars2 eq_refl) as [Hn Hp].
    change (Ok vars2 ≫= ?k) with (k vars2). cbv beta.
    destruct (getkey vars2 "curr_date") as [cd|] eqn:Hcd; [|done].
    change (Ok cd ≫= ?k) with (k cd). cbv beta.
    destruct (int_value cd) as [n|]; [|done].
    change (Ok n ≫= ?k) with (k n). cbv beta.
    destruct (slice4 cd ≫= int_value) as [y|] eqn:Hy; [|done].
    change (Ok y ≫= ?k) with (k y). cbv beta.
    rewrite !(set_if_absent_present "next_trd_date" _ vars2 next Hn).
    change (Ok vars2 ≫= ?k) with (k vars2). cbv beta.
    rewrite !(set_if_absent_present "pre_trd_date" _ vars2 pre Hp).
    change (Ok vars2 ≫= ?k) with (k vars2). cbv beta zeta.
    rewrite Hcd. change (Ok cd ≫= ?k) with (k cd). cbv beta.
    bind_inv Hy as prefix Hslice. destruct (slice4_ok _ _ Hslice) as [s ->].
    reflexivity.
  - destruct (set_if_absent "curr_date" _ vars1) as [vars2|] eqn:Hcurr; [|done].
    destruct (Hkeep vars2 eq_refl) as [Hn Hp].
    change (Ok vars2 ≫= ?k) with (k vars2). cbv beta.
    destruct (getkey vars2 "curr_date") as [cd|] eqn:Hcd; [|done].
    change (Ok cd ≫= ?k) with (k cd). cbv beta.
    destruct (int_value cd) as [n|]; [|done].
    change (Ok n ≫= ?k) with (k n). cbv beta.
    destruct (slice4 cd ≫= int_value) as [y|] eqn:Hy; [|done].
    change (Ok y ≫= ?k) with (k y). cbv beta.
    rewrite !(set_if_absent_present "next_trd_date" _ vars2 next Hn).
    change (Ok vars2 ≫= ?k) with (k vars2). cbv beta.
    by rewrite !(set_if_absent_present "pre_trd_date" _ vars2 pre Hp).
Qed.

End after_calendar.
